(** * rxbot: the IRC client wrapper (src/app/client-wrapper.js)

    A shallow embedding of the [ClientWrapper] class: the JavaScript values
    its methods inspect, the few built-ins they call ([typeof],
    [String.prototype.split], [String.prototype.repeat], [assert.*],
    [Array.prototype.slice], ...), the [irc.Client] object [this.lib] as an
    explicit state, and every command-shaping method as a computation over
    that state.  The theorems at the end are stated about these methods. *)

From Stdlib Require Import String Ascii List ZArith Arith Bool Lia DecimalString.
Import ListNotations.
Open Scope string_scope.

#[local] Set Warnings "-register-all".

(* ================================================================== *)
(** * JavaScript values and built-ins *)
(* ================================================================== *)

Module JS.

(** The values a caller can hand to the wrapper.  A string is a sequence of
    8-bit characters: text is kept in its UTF-8 form, so that a [Buffer]
    ([VBuf]) and the string it decodes to carry the same characters.  Every
    character the wrapper looks for (CR, LF, space, [+], [-] and ASCII
    letters) is a single byte below 128 in UTF-8 and never occurs inside a
    multi-byte sequence, so splitting and matching agree with the UTF-16 view.
    [VNum] stands for the integral numbers, which print in decimal. *)
Inductive value : Type :=
| VUndefined
| VNull
| VBool (b : bool)
| VNum (n : Z)
| VStr (s : string)
| VBuf (bytes : list Byte.byte)
| VArr (elements : list value).

(** ** [typeof], truthiness, [instanceof Array], [Buffer.isBuffer] *)

Definition typeof (v : value) : string :=
  match v with
  | VUndefined => "undefined"
  | VNull => "object"
  | VBool _ => "boolean"
  | VNum _ => "number"
  | VStr _ => "string"
  | VBuf _ => "object"
  | VArr _ => "object"
  end.

(** ToBoolean: [undefined], [null], [false], [0] and the empty string are
    falsy, everything else (objects included) is truthy. *)
Definition truthy (v : value) : bool :=
  match v with
  | VUndefined => false
  | VNull => false
  | VBool b => b
  | VNum n => negb (n =? 0)%Z
  | VStr s => negb (Nat.eqb (String.length s) 0)
  | VBuf _ => true
  | VArr _ => true
  end.

Definition instanceof_Array (v : value) : bool :=
  match v with VArr _ => true | _ => false end.

Definition Buffer_isBuffer (v : value) : bool :=
  match v with VBuf _ => true | _ => false end.

(** [buf.toString()]: decoding; the identity on the UTF-8 view of text. *)
Definition Buffer_toString (bytes : list Byte.byte) : string :=
  string_of_list_byte bytes.

(** ** ToString, as applied by template literals *)

Fixpoint ToString (v : value) : string :=
  match v with
  | VUndefined => "undefined"
  | VNull => "null"
  | VBool true => "true"
  | VBool false => "false"
  | VNum n => NilZero.string_of_int (Z.to_int n)
  | VStr s => s
  | VBuf bytes => Buffer_toString bytes
  | VArr elements =>
      (* Array.prototype.join(","): undefined and null print as nothing *)
      (fix join (l : list value) : string :=
         match l with
         | [] => EmptyString
         | x :: rest =>
             let sx := match x with
                       | VUndefined | VNull => EmptyString
                       | _ => ToString x
                       end in
             match rest with
             | [] => sx
             | _ :: _ => sx ++ "," ++ join rest
             end
         end) elements
  end.

(** ** Strings *)

(** [s.repeat(n)] *)
Fixpoint String_repeat (s : string) (n : nat) : string :=
  match n with
  | O => EmptyString
  | S k => s ++ String_repeat s k
  end.

(** Put one more character in front of the segment being read. *)
Definition push_front (a : ascii) (segments : list string) : list string :=
  match segments with
  | [] => [String a EmptyString]
  | seg :: rest => String a seg :: rest
  end.

(** [s.split(sep)] for a one-character separator string such as [' ']:
    every occurrence of the separator ends a segment, so two separators in a
    row, a leading or a trailing separator each give an empty segment, and
    the empty string gives one empty segment. *)
Fixpoint String_split (sep : ascii) (s : string) : list string :=
  match s with
  | EmptyString => [EmptyString]
  | String a s' =>
      if (a =? sep)%char then EmptyString :: String_split sep s'
      else push_front a (String_split sep s')
  end.

(** [s.split(/[cls]+/)] for a character class [cls]: a match is a maximal
    (greedy) run of class characters, found left to right; the text between
    two matches, before the first and after the last is a segment.  A run at
    the very start or end leaves an empty segment there; inside the text a
    run, however long, is one delimiter.  [in_run] says that the previous
    character belonged to the match in progress. *)
Fixpoint split_class (cls : ascii -> bool) (in_run : bool) (s : string)
  : list string :=
  match s with
  | EmptyString => [EmptyString]
  | String a s' =>
      if cls a then
        if in_run then split_class cls true s'
        else EmptyString :: split_class cls true s'
      else push_front a (split_class cls false s')
  end.

Definition String_split_class (cls : ascii -> bool) (s : string) : list string :=
  split_class cls false s.

(** The class [[\r\n]]. *)
Definition is_CR_or_LF (a : ascii) : bool :=
  (a =? "013")%char || (a =? "010")%char.

(** ** Regular expressions used with [assert.match]

    The three patterns of the source are alternations of literals, two of
    them with the [i] flag; none is anchored, so a pattern matches when one
    of its literals occurs anywhere in the subject. *)
Record RegExp : Type := mkRegExp {
  alternatives : list string;
  ignoreCase : bool
}.

(** Canonicalize of a case-insensitive match: ASCII lower case letters are
    compared as upper case; characters of 128 and above never fold onto an
    ASCII letter. *)
Definition canonicalize (a : ascii) : ascii :=
  let n := nat_of_ascii a in
  if Nat.leb 97 n && Nat.leb n 122 then ascii_of_nat (n - 32) else a.

Fixpoint canonicalize_string (s : string) : string :=
  match s with
  | EmptyString => EmptyString
  | String a s' => String (canonicalize a) (canonicalize_string s')
  end.

(** [lit] occurs somewhere in [s]. *)
Fixpoint includes (lit s : string) : bool :=
  prefix lit s ||
  match s with
  | EmptyString => false
  | String _ s' => includes lit s'
  end.

Definition RegExp_test (re : RegExp) (s : string) : bool :=
  let fold := if ignoreCase re then canonicalize_string else (fun x => x) in
  existsb (fun lit => includes (fold lit) (fold s)) (alternatives re).

(** ** Arrays and numbers *)

(** [arr.slice(start, end)] for indices that are not negative: both ends
    are clamped to the length. *)
Definition Array_slice {A : Type} (l : list A) (start stop : nat) : list A :=
  firstn (stop - start) (skipn start l).

(** [Math.ceil(n / d)] for an array length [n] and a positive [d]: lengths
    stay below 2^32, where the floating-point quotient of a non-multiple is
    at least 1/6 away from an integer, so rounding cannot change the
    ceiling. *)
Definition Math_ceil_div (n d : nat) : nat :=
  if Nat.eqb (n mod d) 0 then n / d else S (n / d).

End JS.

(* ================================================================== *)
(** * The connection object [this.lib] *)
(* ================================================================== *)

Module Irc.
Import JS.

(** What [lib.chanData(channel)] hands back for a known channel; a field
    that was never set reads as [VUndefined]. *)
Record ChanData : Type := mkChanData {
  topic : value;
  topicBy : value
}.

(** One call received by the connection object. *)
Inductive LibCall : Type :=
| Send (args : list value)          (* lib.send(...args) *)
| Join (channel : value)            (* lib.join(channel) *)
| Part (channel message : value).   (* lib.part(channel, message) *)

(** The part of [irc.Client] the wrapper can see: the current nick, the
    cached channel data (absent for an unknown channel) and, in order, the
    calls it has received so far. *)
Record Client : Type := mkClient {
  nick : value;
  chanData : value -> option ChanData;
  calls : list LibCall
}.

Definition record_call (k : LibCall) (c : Client) : Client :=
  mkClient (nick c) (chanData c) (calls c ++ [k]).

Definition record_calls (ks : list LibCall) (c : Client) : Client :=
  mkClient (nick c) (chanData c) (calls c ++ ks).

End Irc.

(* ================================================================== *)
(** * Computations: state of [this.lib] plus exceptions *)
(* ================================================================== *)

Module Run.
Import JS Irc.

(** [AssertionError] is what the [assert] module throws (the spec's
    InvalidArgument); [TypeError] is what a method call on a value without
    that method throws. *)
Inductive error : Type := AssertionError | TypeError.

Inductive outcome (A : Type) : Type :=
| Return (a : A)
| Throw (e : error).
Arguments Return {A} a.
Arguments Throw {A} e.

(** A method body: from the connection state to an outcome and the state
    it leaves behind (calls made before a throw stay made). *)
Definition M (A : Type) : Type := Client -> outcome A * Client.

Definition ret {A} (a : A) : M A := fun c => (Return a, c).

Definition throw {A} (e : error) : M A := fun c => (Throw e, c).

Definition bind {A B} (m : M A) (k : A -> M B) : M B :=
  fun c =>
    match m c with
    | (Return a, c') => k a c'
    | (Throw e, c') => (Throw e, c')
    end.

Declare Scope js_scope.
Delimit Scope js_scope with js.
Notation "x <- m ;; k" := (bind m (fun x => k))
  (at level 61, m at next level, right associativity) : js_scope.
Notation "m ;; k" := (bind m (fun _ => k))
  (at level 61, right associativity) : js_scope.
Open Scope js_scope.

(** ** The collaborator's primitives *)

Definition lib_send (args : list value) : M unit :=
  fun c => (Return tt, record_call (Send args) c).

Definition lib_join (channel : value) : M unit :=
  fun c => (Return tt, record_call (Join channel) c).

Definition lib_part (channel message : value) : M unit :=
  fun c => (Return tt, record_call (Part channel message) c).

Definition lib_nick : M value :=
  fun c => (Return (nick c), c).

Definition lib_chanData (channel : value) : M (option ChanData) :=
  fun c => (Return (chanData c channel), c).

(** ** The [assert] module *)

(** [assert(v)] *)
Definition assert (v : value) : M unit :=
  if truthy v then ret tt else throw AssertionError.

(** [assert.strictEqual(actual, expected)] on two strings *)
Definition assert_strictEqual (actual expected : string) : M unit :=
  if String.eqb actual expected then ret tt else throw AssertionError.

(** [assert.match(v, re)]: throws unless [v] is a string that matches *)
Definition assert_match (v : value) (re : RegExp) : M unit :=
  match v with
  | VStr s => if RegExp_test re s then ret tt else throw AssertionError
  | _ => throw AssertionError
  end.

(** ** Loops *)

(** [arr.forEach(f)] *)
Fixpoint forEach {A} (l : list A) (f : A -> M unit) : M unit :=
  match l with
  | [] => ret tt
  | x :: rest => f x ;; forEach rest f
  end.

(** [for (let i = start; i < start + count; i++) body(i)] *)
Fixpoint for_loop (start count : nat) (body : nat -> M unit) : M unit :=
  match count with
  | O => ret tt
  | S k => body start ;; for_loop (S start) k body
  end.

(** The elements of a value used as an array, and the characters of a value
    used as a string; on anything else the method call throws. *)
Definition as_array (v : value) : M (list value) :=
  match v with
  | VArr elements => ret elements
  | _ => throw TypeError
  end.

Definition as_string (v : value) : M string :=
  match v with
  | VStr s => ret s
  | _ => throw TypeError
  end.

End Run.

(* ================================================================== *)
(** * The wrapper's methods *)
(* ================================================================== *)

Module ClientWrapper.
Import JS Irc Run.

(** The idiom shared by [join], [part], [kick] and [setPrivileges]
    (lines 103-106, 112-115, 121-124 and 189-192):
    [if (typeof x === 'string') x = x.split(' ');  assert(x instanceof Array);] *)
Definition split_if_string (x : value) : value :=
  match x with
  | VStr s => VArr (map VStr (String_split " " s))
  | _ => x
  end.

Definition normalize_list (x : value) : M (list value) :=
  let x := split_if_string x in
  assert (VBool (instanceof_Array x)) ;;
  as_array x.

Definition join (channels : value) : M value :=
  channels <- normalize_list channels ;;
  forEach channels (fun channel => lib_join channel) ;;
  ret VUndefined.

Definition part (channels message : value) : M value :=
  channels <- normalize_list channels ;;
  forEach channels (fun channel => lib_part channel message) ;;
  ret VUndefined.

Definition kick (channel nicks reason : value) : M value :=
  nicks <- normalize_list nicks ;;
  forEach nicks (fun nick =>
    let command := [VStr "KICK"; channel; nick] in
    let command := if truthy reason then (command ++ [reason])%list else command in
    lib_send command) ;;
  ret VUndefined.

Definition getNick : M value :=
  lib_nick.

Definition setNick (nick : value) : M value :=
  lib_send [VStr "NICK"; nick] ;;
  ret VUndefined.

Definition getTopic (channel : value) : M value :=
  data <- lib_chanData channel ;;
  let topic :=
    match data with
    | Some data =>
        if truthy (Irc.topic data) then
          let topic := Irc.topic data in
          if truthy (topicBy data) then
            VStr (ToString topic ++ " set by " ++ ToString (topicBy data))
          else topic
        else VUndefined
    | None => VUndefined
    end in
  ret topic.

Definition setTopic (channel message : value) : M value :=
  lib_send [VStr "TOPIC"; channel; message] ;;
  ret VUndefined.

(** [/PRIVMSG|NOTICE/i], [/\+|\-/] and [/v|h|o/i] *)
Definition re_PRIVMSG_NOTICE : RegExp := mkRegExp ["PRIVMSG"; "NOTICE"] true.
Definition re_plus_minus : RegExp := mkRegExp ["+"; "-"] false.
Definition re_v_h_o : RegExp := mkRegExp ["v"; "h"; "o"] true.

(** Lines 168-174 of [sendMessage]: a string is split at runs of CR and LF,
    a buffer is decoded, split the same way and stripped of its empty
    lines, anything else is left as it is. *)
Definition split_lines (lines : value) : value :=
  match lines with
  | VStr s => VArr (map VStr (String_split_class is_CR_or_LF s))
  | VBuf bytes =>
      VArr (map VStr
              (filter (fun line => negb (Nat.eqb (String.length line) 0))
                      (String_split_class is_CR_or_LF (Buffer_toString bytes))))
  | _ => lines
  end.

Definition sendMessage (type target lines prefix : value) : M value :=
  assert_strictEqual (typeof target) "string" ;;
  assert_match type re_PRIVMSG_NOTICE ;;
  let lines := split_lines lines in
  assert (VBool (instanceof_Array lines)) ;;
  lines <- as_array lines ;;
  let lines :=
    match prefix with
    | VUndefined => lines
    | _ => map (fun line => VStr (ToString prefix ++ " " ++ ToString line)) lines
    end in
  forEach lines (fun line => lib_send [type; target; line]) ;;
  ret VUndefined.

Definition setPrivileges (channel action privilege nicks : value) : M value :=
  assert_strictEqual (typeof channel) "string" ;;
  assert_match action re_plus_minus ;;
  assert_match privilege re_v_h_o ;;
  nicks <- normalize_list nicks ;;
  let batch_size := 6 in
  let batch_count := Math_ceil_div (length nicks) batch_size in
  for_loop 0 batch_count (fun i =>
    let batch_offset := i * batch_size in
    let batch_nicks := Array_slice nicks batch_offset (batch_offset + batch_size) in
    action <- as_string action ;;
    privilege <- as_string privilege ;;
    let batch_mode := action ++ String_repeat privilege (length batch_nicks) in
    let batch_args := ([VStr "MODE"; channel; VStr batch_mode] ++ batch_nicks)%list in
    lib_send batch_args) ;;
  ret VUndefined.

Definition tell (target message prefix : value) : M value :=
  sendMessage (VStr "PRIVMSG") target message prefix.

Definition notify (target message prefix : value) : M value :=
  sendMessage (VStr "NOTICE") target message prefix.

Definition giveOps (channel nicks : value) : M value :=
  setPrivileges channel (VStr "+") (VStr "o") nicks.

Definition takeOps (channel nicks : value) : M value :=
  setPrivileges channel (VStr "-") (VStr "o") nicks.

Definition giveHops (channel nicks : value) : M value :=
  setPrivileges channel (VStr "+") (VStr "h") nicks.

Definition takeHops (channel nicks : value) : M value :=
  setPrivileges channel (VStr "-") (VStr "h") nicks.

Definition giveVoices (channel nicks : value) : M value :=
  setPrivileges channel (VStr "+") (VStr "v") nicks.

Definition takeVoices (channel nicks : value) : M value :=
  setPrivileges channel (VStr "-") (VStr "v") nicks.

End ClientWrapper.

(* ================================================================== *)
(** * The settings computed by the constructor *)
(* ================================================================== *)

Module Settings.
Import JS.

(** A plain object whose values are primitives: its own properties in
    insertion order, each key at most once. *)
Definition Object : Type := list (string * value).

(** The own property [k] of [o], if there is one. *)
Fixpoint Object_lookup (o : Object) (k : string) : option value :=
  match o with
  | [] => None
  | (k', v) :: rest => if String.eqb k' k then Some v else Object_lookup rest k
  end.

(** [o[k]]: a missing property reads as undefined. *)
Definition Object_get (o : Object) (k : string) : value :=
  match Object_lookup o k with
  | Some v => v
  | None => VUndefined
  end.

(** Defining the property [k] on [o]: an existing key keeps its place and
    takes the new value, a new key goes last. *)
Fixpoint Object_set (o : Object) (k : string) (v : value) : Object :=
  match o with
  | [] => [(k, v)]
  | (k', v') :: rest =>
      if String.eqb k' k then (k', v) :: rest
      else (k', v') :: Object_set rest k v
  end.

(** [{ ...target, ...source }], given the copy of [target] made so far:
    the properties of [source] are defined on it one after the other. *)
Definition spread (target source : Object) : Object :=
  fold_left (fun o kv => Object_set o (fst kv) (snd kv)) source target.

(** Lines 33-53. *)
Definition defaults : Object :=
  [ ("userName", VStr "rxbot");
    ("realName", VStr "ReactiveX IRC bot");
    ("localAddress", VNull);
    ("debug", VBool false);
    ("showErrors", VBool true);
    ("autoRejoin", VBool false);
    ("autoConnect", VBool false);
    ("secure", VBool true);
    ("selfSigned", VBool true);
    ("certExpired", VBool true);
    ("floodProtection", VBool false);
    ("floodProtectionDelay", VNum 1000);
    ("sasl", VBool false);
    ("retryCount", VNum 0);
    ("retryDelay", VNum 2000);
    ("stripColors", VBool true);
    ("channelPrefixes", VStr "&#");
    ("messageSplit", VNum 512);
    ("encoding", VStr "UTF-8") ].

(** Line 58: [this.settings = { ...defaults, ...options }], for [options]
    an object or undefined (spreading undefined copies nothing). *)
Definition settings (options : option Object) : Object :=
  let copy := spread [] defaults in
  match options with
  | Some options => spread copy options
  | None => copy
  end.

(** Lines 60-64: the three arguments of [new irc.Client(...)]. *)
Definition client_arguments (options : option Object) : value * value * Object :=
  let settings := settings options in
  (Object_get settings "server", Object_get settings "nick", settings).

(** Line 69: [level: this.settings.logLevel || 'info']. *)
Definition logger_level (options : option Object) : value :=
  let logLevel := Object_get (settings options) "logLevel" in
  if truthy logLevel then logLevel else VStr "info".

End Settings.

Import JS Irc Run ClientWrapper Settings.

(* ================================================================== *)
(** * Vocabulary of the statements *)
(* ================================================================== *)

(** The command [kick] builds for one nick. *)
Definition kick_command (channel reason nick : value) : list value :=
  ([VStr "KICK"; channel; nick] ++ (if truthy reason then [reason] else []))%list.

(** Nicks [6*i .. 6*i+5] of the list, as far as they exist. *)
Definition batch (nicks : list value) (i : nat) : list value :=
  firstn 6 (skipn (6 * i) nicks).

(** The MODE command [setPrivileges] builds for one batch. *)
Definition mode_command (channel action privilege : string)
           (batch_nicks : list value) : list value :=
  ([VStr "MODE"; VStr channel;
    VStr (action ++ String_repeat privilege (length batch_nicks))]
   ++ batch_nicks)%list.

(** The lines [sendMessage] sends once the prefix is applied. *)
Definition prefixed (prefix : value) (lines : list value) : list value :=
  match prefix with
  | VUndefined => lines
  | _ => map (fun line => VStr (ToString prefix ++ " " ++ ToString line)) lines
  end.

(** [ch] is one of the characters of [s]. *)
Definition has_char (ch : ascii) (s : string) : Prop :=
  In ch (list_ascii_of_string s).

(** Number of occurrences of [ch] in [s]. *)
Definition count_char (ch : ascii) (s : string) : nat :=
  count_occ ascii_dec (list_ascii_of_string s) ch.

(** A value [normalize_list] takes: a string or an array. *)
Definition string_or_array (x : value) : Prop :=
  (exists s, x = VStr s) \/ (exists l, x = VArr l).

(** What [sendMessage] takes for its lines. *)
Definition string_buffer_or_array (x : value) : Prop :=
  (exists s, x = VStr s) \/ (exists b, x = VBuf b) \/ (exists l, x = VArr l).

(* DEFS-BEGIN *)
(** A connection that knows no channel and has received no call yet. *)
Definition idle_client : Client :=
  mkClient (VStr "rxbot") (fun _ => None) [].

(** A connection whose every channel has the given topic data. *)
Definition client_with_topic (t b : value) : Client :=
  mkClient (VStr "rxbot") (fun _ => Some (mkChanData t b)) [].

Definition CRLF : string := String "013" (String "010" EmptyString).

(** The text [a\r\nb\r\n\r\nc]. *)
Definition crlf_text : string := "a" ++ CRLF ++ "b" ++ CRLF ++ CRLF ++ "c".

(** Every segment but the last one is non-empty. *)
Fixpoint all_but_last_nonempty (segments : list string) : Prop :=
  match segments with
  | [] => True
  | seg :: rest =>
      match rest with
      | [] => True
      | _ :: _ => seg <> EmptyString /\ all_but_last_nonempty rest
      end
  end.

(** A field of the channel data as the spec types it: a string, or absent. *)
Definition string_or_absent (v : value) : Prop :=
  v = VUndefined \/ exists s, v = VStr s.

(** The acceptance condition of [setPrivileges] in the spec's words: a
    non-empty channel, the action [+] or [-], and one of the letters v, h,
    o in either case. *)
Definition spec_accepts (channel action privilege : value) : Prop :=
  (exists ch, channel = VStr ch /\ ch <> EmptyString) /\
  (action = VStr "+" \/ action = VStr "-") /\
  (exists x, In x ["v"; "V"; "h"; "H"; "o"; "O"]%char /\
             privilege = VStr (String x EmptyString)).

(** The acceptance condition of [setPrivileges] as the code checks it. *)
Definition accepts (channel action privilege nicks : value) : Prop :=
  exists ch a p,
    channel = VStr ch /\ action = VStr a /\ privilege = VStr p /\
    (has_char "+" a \/ has_char "-" a) /\
    (exists x, has_char x p /\ In x ["v"; "V"; "h"; "H"; "o"; "O"]%char) /\
    string_or_array nicks.

(** The checks of [sendMessage]: a string target, a type that contains
    PRIVMSG or NOTICE in any case, and lines that are a string, a buffer or
    an array. *)
Definition sendMessage_accepts (type target lines : value) : Prop :=
  exists ty tg,
    type = VStr ty /\ target = VStr tg /\
    RegExp_test re_PRIVMSG_NOTICE ty = true /\
    string_buffer_or_array lines.

(** A computation that only sends: whatever the state of the connection,
    it either returns undefined after appending the same calls to the log,
    or throws [AssertionError] without touching the connection. *)
Definition sends_only (m : M value) : Prop :=
  (exists ks, forall c, m c = (Return VUndefined, record_calls ks c))
  \/ (forall c, m c = (Throw AssertionError, c)).



(** The six fixed-argument callers of [setPrivileges] (lines 215-237),
    each with the action and the privilege it passes. *)
Definition privilege_wrappers
  : list ((value -> value -> M value) * (string * string)) :=
  [ (giveOps, ("+", "o")); (takeOps, ("-", "o"));
    (giveHops, ("+", "h")); (takeHops, ("-", "h"));
    (giveVoices, ("+", "v")); (takeVoices, ("-", "v")) ].


(** The commands ([lib.send] calls) among the calls of a log. *)
Definition is_Send_with (P : list value -> Prop) (k : LibCall) : Prop :=
  exists args, k = Send args /\ P args.

(* ================================================================== *)
(** * Running the computations *)
(* ================================================================== *)

Section RunLemmas.

Lemma record_calls_nil (c : Client) : record_calls [] c = c.
Proof.
  destruct c as [n d k]. unfold record_calls. simpl. now rewrite app_nil_r.
Qed.

Lemma record_call_calls (k : LibCall) (c : Client) :
  record_call k c = record_calls [k] c.
Proof. reflexivity. Qed.

Lemma record_calls_app (ks1 ks2 : list LibCall) (c : Client) :
  record_calls ks2 (record_calls ks1 c) = record_calls (ks1 ++ ks2) c.
Proof.
  unfold record_calls. simpl. now rewrite app_assoc.
Qed.

Lemma bind_Return {A B} (m : M A) (k : A -> M B) (c c' : Client) (a : A) :
  m c = (Return a, c') -> bind m k c = k a c'.
Proof. intros H. unfold bind. now rewrite H. Qed.

Lemma bind_ret {A B} (a : A) (k : A -> M B) (c : Client) :
  bind (ret a) k c = k a c.
Proof. reflexivity. Qed.

Lemma bind_Throw {A B} (m : M A) (k : A -> M B) (c c' : Client) (e : error) :
  m c = (Throw e, c') -> bind m k c = (Throw e, c').
Proof. intros H. unfold bind. now rewrite H. Qed.

(** A [forEach] whose callback makes exactly one call to the connection
    makes those calls in the order of the array. *)
Lemma forEach_calls {A} (l : list A) (f : A -> M unit) (g : A -> LibCall) :
  (forall x c, f x c = (Return tt, record_call (g x) c)) ->
  forall c, forEach l f c = (Return tt, record_calls (map g l) c).
Proof.
  intros Hf. induction l as [|x rest IH]; intros c; simpl.
  - unfold ret. now rewrite record_calls_nil.
  - rewrite (bind_Return _ _ _ _ _ (Hf x c)).
    rewrite IH, record_call_calls, record_calls_app. reflexivity.
Qed.

(** The same for a counting loop. *)
Lemma for_loop_calls (body : nat -> M unit) (g : nat -> LibCall) :
  (forall i c, body i c = (Return tt, record_call (g i) c)) ->
  forall count start c,
    for_loop start count body c
    = (Return tt, record_calls (map g (seq start count)) c).
Proof.
  intros Hb. induction count as [|k IH]; intros start c; simpl.
  - unfold ret. now rewrite record_calls_nil.
  - rewrite (bind_Return _ _ _ _ _ (Hb start c)).
    rewrite IH, record_call_calls, record_calls_app. reflexivity.
Qed.

Lemma normalize_list_array (l : list value) (c : Client) :
  normalize_list (VArr l) c = (Return l, c).
Proof. reflexivity. Qed.

Lemma normalize_list_string (s : string) (c : Client) :
  normalize_list (VStr s) c = (Return (map VStr (String_split " " s)), c).
Proof. reflexivity. Qed.

(** [normalize_list] succeeds exactly on strings and arrays, and never
    touches the connection. *)
Lemma normalize_list_cases (x : value) (c : Client) :
  (exists l, split_if_string x = VArr l /\ normalize_list x c = (Return l, c))
  \/ ((forall l, split_if_string x <> VArr l)
      /\ normalize_list x c = (Throw AssertionError, c)).
Proof.
  destruct x; simpl;
    try (right; split; [intros l; discriminate | reflexivity]).
  - left. eexists. split; reflexivity.
  - left. eexists. split; reflexivity.
Qed.

Lemma normalize_list_ok (x : value) (l : list value) (c : Client) :
  split_if_string x = VArr l -> normalize_list x c = (Return l, c).
Proof.
  intros H. unfold normalize_list. rewrite H. reflexivity.
Qed.

End RunLemmas.

(* ================================================================== *)
(** * Closed forms of the methods *)
(* ================================================================== *)

Section ClosedForms.

Lemma kick_run (channel nicks reason : value) (l : list value) (c : Client) :
  split_if_string nicks = VArr l ->
  kick channel nicks reason c
  = (Return VUndefined,
     record_calls (map (fun nick => Send (kick_command channel reason nick)) l) c).
Proof.
  intros Hl. unfold kick.
  rewrite (bind_Return _ _ _ _ _ (normalize_list_ok _ _ c Hl)).
  erewrite bind_Return; [reflexivity|].
  apply forEach_calls. intros nick c1. unfold kick_command.
  destruct (truthy reason); reflexivity.
Qed.

Lemma kick_bad_nicks (channel nicks reason : value) (c : Client) :
  (forall l, split_if_string nicks <> VArr l) ->
  kick channel nicks reason c = (Throw AssertionError, c).
Proof.
  intros Hbad. unfold kick.
  destruct (normalize_list_cases nicks c) as [(l & Hl & _)|[_ Hthrow]].
  - now elim (Hbad l).
  - now rewrite (bind_Throw _ _ _ _ _ Hthrow).
Qed.

Lemma Array_slice_batch (nicks : list value) (i : nat) :
  Array_slice nicks (i * 6) (i * 6 + 6) = batch nicks i.
Proof.
  unfold Array_slice, batch.
  replace (i * 6 + 6 - i * 6) with 6 by lia.
  replace (i * 6) with (6 * i) by lia. reflexivity.
Qed.

Lemma setPrivileges_run (channel action privilege : string) (nicks : value)
      (l : list value) (c : Client) :
  RegExp_test re_plus_minus action = true ->
  RegExp_test re_v_h_o privilege = true ->
  split_if_string nicks = VArr l ->
  setPrivileges (VStr channel) (VStr action) (VStr privilege) nicks c
  = (Return VUndefined,
     record_calls
       (map (fun i => Send (mode_command channel action privilege (batch l i)))
            (seq 0 (Math_ceil_div (length l) 6))) c).
Proof.
  intros Ha Hp Hl. unfold setPrivileges.
  unfold assert_strictEqual, assert_match. simpl typeof. simpl String.eqb.
  rewrite Ha, Hp.
  repeat (rewrite bind_ret; cbv beta).
  rewrite (bind_Return _ _ _ _ _ (normalize_list_ok _ _ c Hl)).
  erewrite bind_Return; [reflexivity|].
  apply for_loop_calls. intros i c1.
  rewrite Array_slice_batch. reflexivity.
Qed.

Lemma sendMessage_run (type target : string) (lines prefix : value)
      (l : list value) (c : Client) :
  RegExp_test re_PRIVMSG_NOTICE type = true ->
  split_lines lines = VArr l ->
  sendMessage (VStr type) (VStr target) lines prefix c
  = (Return VUndefined,
     record_calls
       (map (fun line => Send [VStr type; VStr target; line]) (prefixed prefix l))
       c).
Proof.
  intros Ht Hl. unfold sendMessage.
  unfold assert_strictEqual, assert_match, assert. simpl typeof. simpl String.eqb.
  rewrite Ht, Hl. simpl instanceof_Array. simpl truthy.
  repeat (rewrite bind_ret; cbv beta).
  change (as_array (VArr l)) with (@ret (list value) l).
  rewrite bind_ret; cbv beta.
  erewrite bind_Return; [reflexivity|].
  apply forEach_calls. intros line c1. reflexivity.
Qed.

End ClosedForms.

(* ================================================================== *)
(** * Batching arithmetic *)
(* ================================================================== *)

Section Batching.

Lemma firstn_plus {A} (a b : nat) (l : list A) :
  firstn (a + b) l = (firstn a l ++ firstn b (skipn a l))%list.
Proof.
  revert l. induction a as [|a IH]; intros l; simpl.
  - reflexivity.
  - destruct l as [|x l]; simpl.
    + now rewrite firstn_nil.
    + now rewrite IH.
Qed.

(** The first [k] batches, put end to end, are the first [6*k] nicks. *)
Lemma concat_batches (nicks : list value) (k : nat) :
  concat (map (batch nicks) (seq 0 k)) = firstn (6 * k) nicks.
Proof.
  induction k as [|k IH].
  - reflexivity.
  - rewrite seq_S, map_app, concat_app, IH. simpl map. simpl concat.
    rewrite app_nil_r. unfold batch.
    replace (6 * S k) with (6 * k + 6) by lia.
    now rewrite firstn_plus.
Qed.

Lemma length_batch (nicks : list value) (i : nat) :
  length (batch nicks i) = Nat.min 6 (length nicks - 6 * i).
Proof.
  unfold batch. now rewrite length_firstn, length_skipn.
Qed.

(** [Math_ceil_div n 6] is the least [k] with [n <= 6 * k]. *)
Lemma Math_ceil_div_6 (n : nat) :
  n <= 6 * Math_ceil_div n 6 < n + 6.
Proof.
  unfold Math_ceil_div.
  pose proof (Nat.div_mod_eq n 6) as Hdm.
  pose proof (Nat.mod_upper_bound n 6 ltac:(lia)) as Hub.
  destruct (Nat.eqb (n mod 6) 0) eqn:E.
  - apply Nat.eqb_eq in E. lia.
  - apply Nat.eqb_neq in E. lia.
Qed.

End Batching.

(* ================================================================== *)
(** * Splitting and matching *)
(* ================================================================== *)

Section Splitting.

Lemma String_split_not_nil (sep : ascii) (s : string) :
  String_split sep s <> [].
Proof.
  destruct s as [|a s]; simpl; [discriminate|].
  destruct (a =? sep)%char; [discriminate|].
  unfold push_front. destruct (String_split sep s); discriminate.
Qed.

Lemma concat_push_front (sep : string) (a : ascii) (segments : list string) :
  segments <> [] ->
  String.concat sep (push_front a segments)
  = String a (String.concat sep segments).
Proof.
  destruct segments as [|seg rest]; [congruence|]. intros _.
  destruct rest; reflexivity.
Qed.

(** Joining the segments with the separator gives the text back. *)
Lemma concat_String_split (sep : ascii) (s : string) :
  String.concat (String sep EmptyString) (String_split sep s) = s.
Proof.
  induction s as [|a s IH]; simpl; [reflexivity|].
  destruct (a =? sep)%char eqn:E.
  - apply Ascii.eqb_eq in E. subst a.
    pose proof (String_split_not_nil sep s) as Hne.
    destruct (String_split sep s) as [|seg rest]; [congruence|].
    change (String sep (String.concat (String sep EmptyString) (seg :: rest))
            = String sep s).
    now rewrite IH.
  - rewrite concat_push_front by apply String_split_not_nil.
    now rewrite IH.
Qed.

(** No segment contains the separator. *)
Lemma String_split_no_sep (sep : ascii) (s : string) :
  Forall (fun seg => ~ has_char sep seg) (String_split sep s).
Proof.
  induction s as [|a s IH]; simpl.
  - constructor; [intros []|constructor].
  - destruct (a =? sep)%char eqn:E.
    + constructor; [intros []|exact IH].
    + apply Ascii.eqb_neq in E. unfold push_front.
      destruct (String_split sep s) as [|seg rest].
      * constructor; [|constructor]. intros [H|[]]. congruence.
      * inversion IH as [|? ? Hseg Hrest]; subst. constructor; [|exact Hrest].
        intros [H|H]; [congruence|exact (Hseg H)].
Qed.

(** One segment more than there are separators. *)
Lemma length_String_split (sep : ascii) (s : string) :
  length (String_split sep s) = S (count_char sep s).
Proof.
  unfold count_char. induction s as [|a s IH]; simpl; [reflexivity|].
  destruct (a =? sep)%char eqn:E.
  - apply Ascii.eqb_eq in E. subst a. simpl. rewrite IH.
    destruct (ascii_dec sep sep); [reflexivity|congruence].
  - apply Ascii.eqb_neq in E.
    destruct (ascii_dec a sep); [congruence|].
    rewrite <- IH. unfold push_front.
    pose proof (String_split_not_nil sep s) as Hne.
    destruct (String_split sep s); [congruence|reflexivity].
Qed.

End Splitting.

Section Matching.

Lemma prefix_empty (s : string) : prefix EmptyString s = true.
Proof. destruct s; reflexivity. Qed.

(** A one-character literal occurs in [s] when that character does. *)
Lemma includes_char (ch : ascii) (s : string) :
  includes (String ch EmptyString) s = true <-> has_char ch s.
Proof.
  unfold has_char. induction s as [|a s IH]; simpl.
  - split; [discriminate|intros []].
  - destruct (ascii_dec ch a) as [->|Hne].
    + rewrite prefix_empty. simpl. split; auto.
    + simpl. rewrite IH. split; [auto|].
      intros [H|H]; [congruence|exact H].
Qed.

Lemma has_char_canonicalize (ch : ascii) (s : string) :
  has_char ch (canonicalize_string s)
  <-> exists a, has_char a s /\ canonicalize a = ch.
Proof.
  unfold has_char. induction s as [|a s IH]; simpl.
  - split; [intros []|intros (a & [] & _)].
  - rewrite IH. split.
    + intros [H|(b & Hb & Hc)].
      * exists a. auto.
      * exists b. auto.
    + intros (b & [Hb|Hb] & Hc).
      * subst b. auto.
      * right. exists b. auto.
Qed.

(** Only a letter and its lower case form fold onto an upper case letter. *)
Lemma canonicalize_V (a : ascii) :
  canonicalize a = "V"%char <-> a = "v"%char \/ a = "V"%char.
Proof.
  destruct a as [[] [] [] [] [] [] [] []]; vm_compute;
    (split; [intros H; try discriminate H; auto
            |intros [H|H]; try discriminate H; reflexivity]).
Qed.

Lemma canonicalize_H (a : ascii) :
  canonicalize a = "H"%char <-> a = "h"%char \/ a = "H"%char.
Proof.
  destruct a as [[] [] [] [] [] [] [] []]; vm_compute;
    (split; [intros H; try discriminate H; auto
            |intros [H|H]; try discriminate H; reflexivity]).
Qed.

Lemma canonicalize_O (a : ascii) :
  canonicalize a = "O"%char <-> a = "o"%char \/ a = "O"%char.
Proof.
  destruct a as [[] [] [] [] [] [] [] []]; vm_compute;
    (split; [intros H; try discriminate H; auto
            |intros [H|H]; try discriminate H; reflexivity]).
Qed.

(** [/\+|\-/] matches the strings that contain a plus or a minus sign. *)
Lemma test_plus_minus (s : string) :
  RegExp_test re_plus_minus s = true
  <-> has_char "+" s \/ has_char "-" s.
Proof.
  unfold RegExp_test, re_plus_minus. cbn [ignoreCase alternatives existsb].
  rewrite orb_false_r, orb_true_iff, !includes_char. reflexivity.
Qed.

(** [/v|h|o/i] matches the strings that contain one of the letters v, h
    and o in either case. *)
Lemma test_v_h_o (s : string) :
  RegExp_test re_v_h_o s = true
  <-> exists ch, has_char ch s /\
                 In ch ["v"; "V"; "h"; "H"; "o"; "O"]%char.
Proof.
  unfold RegExp_test, re_v_h_o. cbn [ignoreCase alternatives existsb].
  rewrite orb_false_r, !orb_true_iff.
  change (canonicalize_string "v") with "V".
  change (canonicalize_string "h") with "H".
  change (canonicalize_string "o") with "O".
  rewrite !includes_char, !has_char_canonicalize.
  split.
  - intros [(a & Ha & Hc)|[(a & Ha & Hc)|(a & Ha & Hc)]]; exists a;
      (split; [exact Ha|]).
    + apply canonicalize_V in Hc. destruct Hc as [->| ->]; simpl; auto 10.
    + apply canonicalize_H in Hc. destruct Hc as [->| ->]; simpl; auto 10.
    + apply canonicalize_O in Hc. destruct Hc as [->| ->]; simpl; auto 10.
  - intros (a & Ha & Hin). simpl in Hin.
    destruct Hin as [<-|[<-|[<-|[<-|[<-|[<-|[]]]]]]].
    + left. exists "v"%char. auto.
    + left. exists "V"%char. auto.
    + right. left. exists "h"%char. auto.
    + right. left. exists "H"%char. auto.
    + right. right. exists "o"%char. auto.
    + right. right. exists "O"%char. auto.
Qed.

End Matching.

(* ================================================================== *)
(** * Validation *)
(* ================================================================== *)

Section Validation.

Lemma string_or_array_split (x : value) :
  string_or_array x <-> exists l, split_if_string x = VArr l.
Proof.
  split.
  - intros [[s ->]|[l ->]]; eexists; reflexivity.
  - intros [l H]. destruct x; try discriminate H.
    + left. eauto.
    + right. eauto.
Qed.

Lemma string_buffer_or_array_lines (x : value) :
  string_buffer_or_array x <-> exists l, split_lines x = VArr l.
Proof.
  split.
  - intros [[s ->]|[[b ->]|[l ->]]]; eexists; reflexivity.
  - intros [l H]. destruct x; try discriminate H.
    + left. eauto.
    + right. left. eauto.
    + right. right. eauto.
Qed.

(** Either every check of [setPrivileges] passes, or the call throws
    [AssertionError] and leaves the connection as it was. *)
Lemma setPrivileges_cases (channel action privilege nicks : value) (c : Client) :
  (exists ch a p l,
      channel = VStr ch /\ action = VStr a /\ privilege = VStr p /\
      RegExp_test re_plus_minus a = true /\
      RegExp_test re_v_h_o p = true /\
      split_if_string nicks = VArr l)
  \/ setPrivileges channel action privilege nicks c = (Throw AssertionError, c).
Proof.
  destruct channel as [| | | |ch| |]; try (right; reflexivity).
  destruct action as [| | | |a| |]; try (right; reflexivity).
  destruct (RegExp_test re_plus_minus a) eqn:Ha;
    [|right; unfold setPrivileges, assert_match; simpl; now rewrite Ha].
  destruct privilege as [| | | |p| |];
    try (right; unfold setPrivileges, assert_match; simpl; now rewrite Ha).
  destruct (RegExp_test re_v_h_o p) eqn:Hp;
    [|right; unfold setPrivileges, assert_match; simpl; now rewrite Ha, Hp].
  destruct (normalize_list_cases nicks c) as [(l & Hl & _)|[_ Hthrow]].
  - left. exists ch, a, p, l. auto 10.
  - right. unfold setPrivileges, assert_strictEqual, assert_match.
    simpl typeof. simpl String.eqb. rewrite Ha, Hp.
    repeat (rewrite bind_ret; cbv beta).
    now rewrite (bind_Throw _ _ _ _ _ Hthrow).
Qed.

(** The same for [sendMessage]. *)
Lemma sendMessage_cases (type target lines prefix : value) (c : Client) :
  (exists ty tg l,
      type = VStr ty /\ target = VStr tg /\
      RegExp_test re_PRIVMSG_NOTICE ty = true /\
      split_lines lines = VArr l)
  \/ sendMessage type target lines prefix c = (Throw AssertionError, c).
Proof.
  destruct target as [| | | |tg| |]; try (right; reflexivity).
  destruct type as [| | | |ty| |]; try (right; reflexivity).
  destruct (RegExp_test re_PRIVMSG_NOTICE ty) eqn:Ht;
    [|right; unfold sendMessage, assert_match; simpl; now rewrite Ht].
  destruct lines as [| |b|n|s|bytes|l];
    try (right; unfold sendMessage, assert_match; simpl; now rewrite Ht).
  all: left; exists ty, tg; eexists;
    (split; [reflexivity|]); (split; [reflexivity|]);
    (split; [exact Ht|reflexivity]).
Qed.

End Validation.

Section Lines.

Lemma split_class_not_nil cls b s : split_class cls b s <> [].
Proof.
  revert b. induction s as [|a s IH]; intros b; simpl; [discriminate|].
  destruct (cls a).
  - destruct b; [apply IH|discriminate].
  - unfold push_front. destruct (split_class cls false s); discriminate.
Qed.

(** After a delimiter run only the last segment can be empty; before the
    first run the segment being read can be empty as well. *)
Lemma split_class_inner cls s :
  all_but_last_nonempty (split_class cls true s)
  /\ all_but_last_nonempty (tl (split_class cls false s)).
Proof.
  induction s as [|a s [IHt IHf]]; simpl.
  - split; exact I.
  - destruct (cls a).
    + split; [exact IHt|exact IHt].
    + pose proof (split_class_not_nil cls false s) as Hne.
      destruct (split_class cls false s) as [|seg rest]; [congruence|].
      simpl in IHf |- *. split; [|exact IHf].
      destruct rest; [exact I|]. split; [discriminate|exact IHf].
Qed.

Lemma String_split_class_inner cls s :
  all_but_last_nonempty (tl (String_split_class cls s)).
Proof. apply split_class_inner. Qed.

End Lines.

Section MoreClosedForms.

Lemma join_run (channels : value) (l : list value) (c : Client) :
  split_if_string channels = VArr l ->
  join channels c = (Return VUndefined, record_calls (map Join l) c).
Proof.
  intros Hl. unfold join.
  rewrite (bind_Return _ _ _ _ _ (normalize_list_ok _ _ c Hl)).
  erewrite bind_Return; [reflexivity|].
  apply forEach_calls. intros ch c1. reflexivity.
Qed.

Lemma part_run (channels message : value) (l : list value) (c : Client) :
  split_if_string channels = VArr l ->
  part channels message c
  = (Return VUndefined, record_calls (map (fun ch => Part ch message) l) c).
Proof.
  intros Hl. unfold part.
  rewrite (bind_Return _ _ _ _ _ (normalize_list_ok _ _ c Hl)).
  erewrite bind_Return; [reflexivity|].
  apply forEach_calls. intros ch c1. reflexivity.
Qed.

Lemma truthy_VStr (s : string) :
  truthy (VStr s) = true <-> s <> EmptyString.
Proof.
  destruct s; simpl; split; congruence.
Qed.

End MoreClosedForms.

(* ================================================================== *)
(** * Properties of the wrapper *)
(* ================================================================== *)

(** C1.  For a channel, an action and a privilege that pass the checks and
    a nick list of length N, [setPrivileges] returns normally after sending
    exactly [k] commands, where [k] is the ceiling of N/6 (the one [k] with
    [N <= 6k < N + 6]).  The i-th command is
    ["MODE", channel, action + privilege repeated once per nick of the
    batch, ...batch], where batch [i] is the slice of the nicks from index
    [6i] to [6i + 6]: never empty, never longer than 6, and together, in
    order, the batches are the whole nick list.  No nick, no command. *)
Theorem setPrivileges_batches :
  forall (channel action privilege : string) (nicks : list value) (c : Client),
    RegExp_test re_plus_minus action = true ->
    RegExp_test re_v_h_o privilege = true ->
    exists k : nat,
      length nicks <= 6 * k < length nicks + 6 /\
      setPrivileges (VStr channel) (VStr action) (VStr privilege) (VArr nicks) c
      = (Return VUndefined,
         record_calls
           (map (fun i =>
                   Send ([VStr "MODE"; VStr channel;
                          VStr (action ++
                                String_repeat privilege
                                  (length (firstn 6 (skipn (6 * i) nicks))))]
                         ++ firstn 6 (skipn (6 * i) nicks))%list)
                (seq 0 k)) c) /\
      (forall i, i < k -> 1 <= length (firstn 6 (skipn (6 * i) nicks)) <= 6) /\
      concat (map (fun i => firstn 6 (skipn (6 * i) nicks)) (seq 0 k)) = nicks /\
      (nicks = [] -> k = 0).
Proof.
  intros channel action privilege nicks c Ha Hp.
  pose proof (Math_ceil_div_6 (length nicks)) as Hk.
  exists (Math_ceil_div (length nicks) 6).
  split; [exact Hk|]. split; [|split; [|split]].
  - now apply setPrivileges_run.
  - intros i Hi. fold (batch nicks i). rewrite length_batch. lia.
  - change (fun i => firstn 6 (skipn (6 * i) nicks)) with (batch nicks).
    rewrite concat_batches. apply firstn_all2. lia.
  - intros ->. reflexivity.
Qed.

Lemma setPrivileges_batches_witness :
  RegExp_test re_plus_minus "+" = true /\
  RegExp_test re_v_h_o "o" = true /\
  exists k : nat,
    7 <= 6 * k < 7 + 6 /\
    calls (snd (setPrivileges (VStr "#chan") (VStr "+") (VStr "o")
                  (VArr (map VStr ["a"; "b"; "c"; "d"; "e"; "f"; "g"]))
                  idle_client))
    = [Send (map VStr ["MODE"; "#chan"; "+oooooo"; "a"; "b"; "c"; "d"; "e"; "f"]);
       Send (map VStr ["MODE"; "#chan"; "+o"; "g"])].
Proof.
  split; [reflexivity|]. split; [reflexivity|].
  destruct (setPrivileges_batches "#chan" "+" "o"
              (map VStr ["a"; "b"; "c"; "d"; "e"; "f"; "g"]) idle_client
              eq_refl eq_refl) as (k & Hk & Hrun & _).
  exists k. split; [exact Hk|].
  rewrite Hrun.
  change (7 <= 6 * k < 7 + 6) in Hk.
  assert (k = 2) as -> by lia.
  reflexivity.
Defined.

(** C2, as the claim states it, fails: on the string [a\r\nb\r\n\r\nc] the
    two CRLFs in a row are one match of [/[\r\n]+/], so the split gives the
    three lines a, b, c and not the four lines a, b, (empty), c. *)
Lemma split_lines_string_keeps_no_inner_empty_line :
  split_lines (VStr crlf_text) = VArr [VStr "a"; VStr "b"; VStr "c"]
  /\ split_lines (VStr crlf_text)
     <> VArr [VStr "a"; VStr "b"; VStr EmptyString; VStr "c"].
Proof.
  split; [reflexivity|]. intros H. vm_compute in H. discriminate H.
Qed.

(** C2, amended.  The line splitting of [sendMessage] turns the string
    [a\r\nb\r\n\r\nc] into the three lines a, b, c, and the same content
    given as a byte buffer into the same three lines; [tell] then sends
    three PRIVMSG commands.  For a string, whatever it is, only the first
    and the last segment can be empty (a delimiter run at the very start or
    end), as in [a\r\n], which gives the lines a and (empty) as a string and
    the single line a as a buffer. *)
Theorem split_lines_crlf_runs :
  split_lines (VStr crlf_text) = VArr [VStr "a"; VStr "b"; VStr "c"]
  /\ split_lines (VBuf (list_byte_of_string crlf_text))
     = VArr [VStr "a"; VStr "b"; VStr "c"]
  /\ calls (snd (tell (VStr "#chan") (VStr crlf_text) VUndefined idle_client))
     = [Send [VStr "PRIVMSG"; VStr "#chan"; VStr "a"];
        Send [VStr "PRIVMSG"; VStr "#chan"; VStr "b"];
        Send [VStr "PRIVMSG"; VStr "#chan"; VStr "c"]]
  /\ (forall s : string,
         all_but_last_nonempty (tl (String_split_class is_CR_or_LF s)))
  /\ split_lines (VStr ("a" ++ CRLF)) = VArr [VStr "a"; VStr EmptyString]
  /\ split_lines (VBuf (list_byte_of_string ("a" ++ CRLF))) = VArr [VStr "a"].
Proof.
  split; [reflexivity|]. split; [reflexivity|]. split; [reflexivity|].
  split; [intros s; apply String_split_class_inner|].
  split; reflexivity.
Qed.

(** C3, as the claim states it, fails: [split(' ')] cuts at every single
    space, so the three spaces before carol leave two empty tokens. *)
Lemma normalize_list_keeps_empty_tokens :
  normalize_list (VStr "alice bob   carol") idle_client
  = (Return [VStr "alice"; VStr "bob"; VStr EmptyString; VStr EmptyString;
             VStr "carol"], idle_client)
  /\ fst (normalize_list (VStr "alice bob   carol") idle_client)
     <> Return [VStr "alice"; VStr "bob"; VStr "carol"].
Proof.
  split; [reflexivity|]. intros H. vm_compute in H. discriminate H.
Qed.

(** C3, amended.  For every string input the normalization shared by
    [join], [part], [kick] and [setPrivileges] cuts the string at every
    single space character and keeps all the tokens, empty ones included,
    in left-to-right order: joining the tokens with one space gives the
    input back, no token contains a space, and there is one token more than
    there are spaces.  [join] and [kick] act once per token.  Normalizing
    [alice bob   carol] yields the five tokens alice, bob, (empty), (empty),
    carol. *)
Theorem normalize_list_splits_at_each_space :
  forall (s : string) (c : Client),
    exists tokens : list string,
      normalize_list (VStr s) c = (Return (map VStr tokens), c)
      /\ String.concat " " tokens = s
      /\ Forall (fun token => ~ has_char " " token) tokens
      /\ length tokens = S (count_char " " s)
      /\ (forall channel reason,
             kick channel (VStr s) reason c
             = (Return VUndefined,
                record_calls
                  (map (fun token =>
                          Send (kick_command channel reason (VStr token)))
                       tokens) c))
      /\ join (VStr s) c
         = (Return VUndefined,
            record_calls (map (fun token => Join (VStr token)) tokens) c)
      /\ normalize_list (VStr "alice bob   carol") c
         = (Return [VStr "alice"; VStr "bob"; VStr EmptyString;
                    VStr EmptyString; VStr "carol"], c).
Proof.
  intros s c. exists (String_split " " s).
  split; [reflexivity|].
  split; [apply concat_String_split|].
  split; [apply String_split_no_sep|].
  split; [apply length_String_split|].
  split; [|split; [|reflexivity]].
  - intros channel reason.
    rewrite (kick_run channel (VStr s) reason _ c eq_refl).
    now rewrite map_map.
  - rewrite (join_run (VStr s) _ c eq_refl). now rewrite map_map.
Qed.

(** C4, as the claim states it, fails: a snapshot whose topic is present
    but is the empty string makes [getTopic] return undefined, and a
    setter that is present but empty is not appended. *)
Lemma getTopic_empty_topic_is_absent :
  fst (getTopic (VStr "#chan")
         (client_with_topic (VStr EmptyString) VUndefined)) = Return VUndefined
  /\ chanData (client_with_topic (VStr EmptyString) VUndefined) (VStr "#chan")
     = Some (mkChanData (VStr EmptyString) VUndefined)
  /\ VStr EmptyString <> VUndefined
  /\ fst (getTopic (VStr "#chan")
            (client_with_topic (VStr "hello") (VStr EmptyString)))
     = Return (VStr "hello").
Proof.
  repeat split; try reflexivity. discriminate.
Qed.

(** C4, amended.  With topic data whose fields are strings or absent,
    [getTopic] returns absent (undefined) exactly when the snapshot is
    absent or its topic is absent or the empty string; otherwise it returns
    the topic, with [" set by " + topicBy] appended if and only if topicBy
    is present and not the empty string. *)
Theorem getTopic_composes :
  forall (c : Client) (channel : value),
    (forall d, chanData c channel = Some d ->
               string_or_absent (topic d) /\ string_or_absent (topicBy d)) ->
    exists r : value,
      getTopic channel c = (Return r, c)
      /\ (r = VUndefined <->
          chanData c channel = None
          \/ exists d, chanData c channel = Some d
                       /\ (topic d = VUndefined \/ topic d = VStr EmptyString))
      /\ (forall d t,
             chanData c channel = Some d -> topic d = VStr t ->
             t <> EmptyString ->
             (forall b, topicBy d = VStr b -> b <> EmptyString ->
                        r = VStr (t ++ " set by " ++ b))
             /\ (topicBy d = VUndefined \/ topicBy d = VStr EmptyString ->
                 r = VStr t)).
Proof.
  intros c channel Htyped. unfold getTopic, lib_chanData.
  rewrite bind_Return with (a := chanData c channel) (c' := c) by reflexivity.
  unfold ret.
  destruct (chanData c channel) as [[t b]|] eqn:Hd.
  2:{ eexists. split; [reflexivity|]. split.
      - split; auto.
      - intros d t Habs. discriminate Habs. }
  destruct (Htyped _ eq_refl) as [Ht Hb]. simpl in Ht, Hb. simpl.
  destruct Ht as [->|[ts ->]].
  { eexists. split; [reflexivity|]. split.
    - split; [|reflexivity]. intros _. right. eexists. split; [reflexivity|].
      simpl. auto.
    - intros d t Hsome Htopic. injection Hsome as <-. discriminate Htopic. }
  destruct ts as [|a ts].
  { eexists. split; [reflexivity|]. split.
    - split; [|reflexivity]. intros _. right. eexists. split; [reflexivity|].
      simpl. auto.
    - intros d t Hsome Htopic Hne. injection Hsome as <-.
      simpl in Htopic. injection Htopic as <-. congruence. }
  simpl truthy.
  destruct Hb as [->|[[|b0 bs] ->]]; simpl truthy; cbv iota;
    (eexists; split; [reflexivity|]; split;
     [split;
      [intros H; discriminate H
      |intros [H|(d & Hsome & [H|H])];
       [discriminate H
       |injection Hsome as <-; discriminate H
       |injection Hsome as <-; discriminate H]]
     |intros d t Hsome Htopic Hne; injection Hsome as <-;
      simpl in Htopic; injection Htopic as <-; split;
      [intros b Hby Hbne; simpl in Hby;
       first [discriminate Hby
             |injection Hby as <-; first [congruence|reflexivity]]
      |intros [H|H]; simpl in H;
       first [reflexivity|discriminate H]]]).
Qed.

Lemma getTopic_composes_witness :
  (forall d,
      chanData (client_with_topic (VStr "hello") (VStr "alice")) (VStr "#chan")
      = Some d ->
      string_or_absent (topic d) /\ string_or_absent (topicBy d))
  /\ exists r : value,
      getTopic (VStr "#chan") (client_with_topic (VStr "hello") (VStr "alice"))
      = (Return r, client_with_topic (VStr "hello") (VStr "alice"))
      /\ r = VStr "hello set by alice".
Proof.
  assert (Htyped : forall d,
             chanData (client_with_topic (VStr "hello") (VStr "alice"))
                      (VStr "#chan") = Some d ->
             string_or_absent (topic d) /\ string_or_absent (topicBy d)).
  { intros d H. simpl in H. injection H as <-.
    split; right; eexists; reflexivity. }
  split; [exact Htyped|].
  destruct (getTopic_composes _ (VStr "#chan") Htyped) as (r & Hrun & _ & Hsome).
  exists r. split; [exact Hrun|].
  destruct (Hsome _ "hello" eq_refl eq_refl ltac:(discriminate)) as [Hby _].
  apply (Hby "alice" eq_refl). discriminate.
Defined.

(** The three examples of the spec for [getTopic]. *)
Example getTopic_examples :
  fst (getTopic (VStr "#chan") (client_with_topic (VStr "hello") (VStr "alice")))
  = Return (VStr "hello set by alice")
  /\ fst (getTopic (VStr "#chan") (client_with_topic (VStr "hello") VUndefined))
     = Return (VStr "hello")
  /\ fst (getTopic (VStr "#chan") idle_client) = Return VUndefined.
Proof. repeat split. Qed.

(** C9.  [getTopic] leaves the connection object exactly as it found it:
    the channel data it read, topic and topicBy included, is unchanged
    after the call, and no call has been made on the connection. *)
Theorem getTopic_reads_only :
  forall (c : Client) (channel : value),
    snd (getTopic channel c) = c
    /\ (forall ch, chanData (snd (getTopic channel c)) ch = chanData c ch)
    /\ calls (snd (getTopic channel c)) = calls c.
Proof.
  intros c channel.
  assert (H : snd (getTopic channel c) = c).
  { unfold getTopic, lib_chanData.
    rewrite bind_Return with (a := chanData c channel) (c' := c) by reflexivity.
    reflexivity. }
  rewrite H. auto.
Qed.

(** C8, as the claim states it, fails: [setNick] has no return statement,
    so it returns undefined and not the current nick. *)
Lemma setNick_returns_undefined :
  fst (setNick (VStr "newbot") idle_client) = Return VUndefined
  /\ fst (getNick idle_client) = Return (VStr "rxbot")
  /\ fst (setNick (VStr "newbot") idle_client) <> fst (getNick idle_client)
  /\ fst (setNick (VStr "newbot") idle_client)
     <> fst (getNick (snd (setNick (VStr "newbot") idle_client))).
Proof.
  repeat split; try reflexivity; intros H; vm_compute in H; discriminate H.
Qed.

(** C8, amended.  For every nick argument, [setNick] sends the one command
    ["NICK", nick] and returns undefined; the current nick kept by the
    connection is what [getNick] returns, and [getNick] sends nothing. *)
Theorem setNick_sends_NICK :
  forall (n : value) (c : Client),
    setNick n c = (Return VUndefined, record_call (Send [VStr "NICK"; n]) c)
    /\ getNick c = (Return (nick c), c).
Proof.
  intros n c. split; reflexivity.
Qed.

(** C7, as the claim states it, fails: a reason that is provided but is
    the empty string is not appended. *)
Lemma kick_drops_empty_reason :
  calls (snd (kick (VStr "#chan") (VStr "bob") (VStr EmptyString) idle_client))
  = [Send [VStr "KICK"; VStr "#chan"; VStr "bob"]]
  /\ VStr EmptyString <> VUndefined.
Proof.
  split; [reflexivity|discriminate].
Qed.

(** C7, amended.  For every channel, every nick input that is a string or
    an array, and every reason, [kick] sends exactly one KICK command per
    normalized nick, in list order, each of the form ["KICK", channel, nick]
    with the reason appended as a final token if and only if the reason is
    truthy (for a string: not empty).  [kick("#chan", "bob carol", "spam")]
    sends exactly two KICK commands, each ending in "spam". *)
Theorem kick_one_command_per_nick :
  forall (channel nicks reason : value) (l : list value) (c : Client),
    split_if_string nicks = VArr l ->
    kick channel nicks reason c
    = (Return VUndefined,
       record_calls
         (map (fun n =>
                 Send ([VStr "KICK"; channel; n]
                       ++ (if truthy reason then [reason] else []))%list)
              l) c)
    /\ calls (snd (kick (VStr "#chan") (VStr "bob carol") (VStr "spam")
                     idle_client))
       = [Send [VStr "KICK"; VStr "#chan"; VStr "bob"; VStr "spam"];
          Send [VStr "KICK"; VStr "#chan"; VStr "carol"; VStr "spam"]].
Proof.
  intros channel nicks reason l c Hl. split; [|reflexivity].
  now apply kick_run.
Qed.

Lemma kick_one_command_per_nick_witness :
  split_if_string (VArr [VStr "bob"; VStr "carol"])
  = VArr [VStr "bob"; VStr "carol"]
  /\ kick (VStr "#chan") (VArr [VStr "bob"; VStr "carol"]) VUndefined idle_client
     = (Return VUndefined,
        record_calls [Send [VStr "KICK"; VStr "#chan"; VStr "bob"];
                      Send [VStr "KICK"; VStr "#chan"; VStr "carol"]]
                     idle_client).
Proof.
  split; [reflexivity|].
  exact (proj1 (kick_one_command_per_nick
                  (VStr "#chan") (VArr [VStr "bob"; VStr "carol"]) VUndefined
                  [VStr "bob"; VStr "carol"] idle_client eq_refl)).
Defined.

(** C10.  For every channel and every nick input that is a string or an
    array, [kick] with the empty string as reason sends its KICK commands
    with no reason token at all: ["KICK", channel, nick] for each nick.
    More generally the reason is left out whenever it is falsy, and a
    string reason is truthy only when it is not empty. *)
Theorem kick_empty_reason_is_dropped :
  forall (channel nicks : value) (l : list value) (c : Client),
    split_if_string nicks = VArr l ->
    kick channel nicks (VStr EmptyString) c
    = (Return VUndefined,
       record_calls (map (fun n => Send [VStr "KICK"; channel; n]) l) c)
    /\ (forall reason,
           truthy reason = false ->
           kick channel nicks reason c
           = kick channel nicks (VStr EmptyString) c)
    /\ (forall s, truthy (VStr s) = true <-> s <> EmptyString).
Proof.
  intros channel nicks l c Hl.
  assert (Hfalsy : forall reason,
             truthy reason = false ->
             kick channel nicks reason c
             = (Return VUndefined,
                record_calls (map (fun n => Send [VStr "KICK"; channel; n]) l) c)).
  { intros reason Hr. rewrite (kick_run _ _ _ _ c Hl).
    unfold kick_command. rewrite Hr. reflexivity. }
  split; [apply Hfalsy; reflexivity|]. split.
  - intros reason Hr. rewrite (Hfalsy reason Hr).
    symmetry. apply Hfalsy. reflexivity.
  - apply truthy_VStr.
Qed.

Lemma kick_empty_reason_is_dropped_witness :
  split_if_string (VStr "bob carol") = VArr [VStr "bob"; VStr "carol"]
  /\ kick (VStr "#chan") (VStr "bob carol") (VStr EmptyString) idle_client
     = (Return VUndefined,
        record_calls [Send [VStr "KICK"; VStr "#chan"; VStr "bob"];
                      Send [VStr "KICK"; VStr "#chan"; VStr "carol"]]
                     idle_client).
Proof.
  split; [reflexivity|].
  exact (proj1 (kick_empty_reason_is_dropped
                  (VStr "#chan") (VStr "bob carol")
                  [VStr "bob"; VStr "carol"] idle_client eq_refl)).
Defined.

Section Acceptance.

Lemma accepts_checks (channel action privilege nicks : value) :
  accepts channel action privilege nicks
  <-> exists ch a p l,
        channel = VStr ch /\ action = VStr a /\ privilege = VStr p /\
        RegExp_test re_plus_minus a = true /\
        RegExp_test re_v_h_o p = true /\
        split_if_string nicks = VArr l.
Proof.
  unfold accepts. split.
  - intros (ch & a & p & Hc & Ha & Hp & Hta & Htp & Hn).
    apply string_or_array_split in Hn. destruct Hn as [l Hl].
    exists ch, a, p, l.
    apply test_plus_minus in Hta. apply test_v_h_o in Htp. auto 10.
  - intros (ch & a & p & l & Hc & Ha & Hp & Hta & Htp & Hl).
    exists ch, a, p.
    apply test_plus_minus in Hta. apply test_v_h_o in Htp.
    assert (string_or_array nicks) by (apply string_or_array_split; eauto).
    auto 10.
Qed.

Lemma accepts_runs (channel action privilege nicks : value) (c : Client) :
  accepts channel action privilege nicks ->
  exists ks,
    setPrivileges channel action privilege nicks c
    = (Return VUndefined, record_calls ks c).
Proof.
  intros H. apply accepts_checks in H.
  destruct H as (ch & a & p & l & -> & -> & -> & Hta & Htp & Hl).
  eexists. exact (setPrivileges_run ch a p nicks l c Hta Htp Hl).
Qed.

Lemma not_accepts_throws (channel action privilege nicks : value) (c : Client) :
  ~ accepts channel action privilege nicks ->
  setPrivileges channel action privilege nicks c = (Throw AssertionError, c).
Proof.
  intros Hno.
  destruct (setPrivileges_cases channel action privilege nicks c) as [H|H];
    [|exact H].
  elim Hno. now apply accepts_checks.
Qed.

Lemma sendMessage_accepts_runs (type target lines prefix : value) (c : Client) :
  sendMessage_accepts type target lines ->
  exists ks,
    sendMessage type target lines prefix c
    = (Return VUndefined, record_calls ks c).
Proof.
  intros (ty & tg & -> & -> & Ht & Hl).
  apply string_buffer_or_array_lines in Hl. destruct Hl as [l Hl].
  eexists. exact (sendMessage_run ty tg lines prefix l c Ht Hl).
Qed.

Lemma sendMessage_not_accepts_throws (type target lines prefix : value)
      (c : Client) :
  ~ sendMessage_accepts type target lines ->
  sendMessage type target lines prefix c = (Throw AssertionError, c).
Proof.
  intros Hno.
  destruct (sendMessage_cases type target lines prefix c)
    as [(ty & tg & l & -> & -> & Ht & Hl)|H]; [|exact H].
  elim Hno. exists ty, tg.
  assert (string_buffer_or_array lines)
    by (apply string_buffer_or_array_lines; eauto).
  auto.
Qed.

End Acceptance.

(** C5.  A call to [setPrivileges] or [sendMessage] that raises raises
    [AssertionError] and leaves the connection as it was before the call:
    not one command has been sent, so no partial batch is ever emitted.
    Every input that fails a check (a channel, action, privilege, type or
    target that is not a string or does not match, nicks that are neither a
    string nor an array, lines that are neither a string, a buffer nor an
    array) raises this way. *)
Theorem validation_failure_sends_nothing :
  forall (c : Client),
    (forall channel action privilege nicks e c',
        setPrivileges channel action privilege nicks c = (Throw e, c') ->
        e = AssertionError /\ c' = c /\ calls c' = calls c)
    /\ (forall type target lines prefix e c',
           sendMessage type target lines prefix c = (Throw e, c') ->
           e = AssertionError /\ c' = c /\ calls c' = calls c)
    /\ (forall channel action privilege nicks,
           ~ accepts channel action privilege nicks ->
           setPrivileges channel action privilege nicks c
           = (Throw AssertionError, c))
    /\ (forall type target lines prefix,
           ~ sendMessage_accepts type target lines ->
           sendMessage type target lines prefix c = (Throw AssertionError, c)).
Proof.
  intros c. split; [|split; [|split]].
  - intros channel action privilege nicks e c' Hthrow.
    destruct (setPrivileges_cases channel action privilege nicks c)
      as [(ch & a & p & l & -> & -> & -> & Ha & Hp & Hl)|H].
    + rewrite (setPrivileges_run ch a p nicks l c Ha Hp Hl) in Hthrow.
      discriminate Hthrow.
    + rewrite H in Hthrow. injection Hthrow as <- <-. auto.
  - intros type target lines prefix e c' Hthrow.
    destruct (sendMessage_cases type target lines prefix c)
      as [(ty & tg & l & -> & -> & Ht & Hl)|H].
    + rewrite (sendMessage_run ty tg lines prefix l c Ht Hl) in Hthrow.
      discriminate Hthrow.
    + rewrite H in Hthrow. injection Hthrow as <- <-. auto.
  - intros. now apply not_accepts_throws.
  - intros. now apply sendMessage_not_accepts_throws.
Qed.

Lemma validation_failure_sends_nothing_witness :
  (setPrivileges (VStr "#chan") (VStr "+") (VStr "x")
                 (VArr [VStr "alice"]) idle_client
   = (Throw AssertionError, idle_client)
   /\ sendMessage (VStr "PRIVMSG") (VNum 7) (VStr "hello") VUndefined
                  idle_client
      = (Throw AssertionError, idle_client))
  /\ (AssertionError = AssertionError
      /\ idle_client = idle_client
      /\ calls idle_client = calls idle_client).
Proof.
  split; [split; reflexivity|].
  exact (proj1 (validation_failure_sends_nothing idle_client)
               (VStr "#chan") (VStr "+") (VStr "x") (VArr [VStr "alice"])
               AssertionError idle_client eq_refl).
Defined.

(** C6, as the claim states it, fails: [setPrivileges] accepts the empty
    string as channel, an action such as [a+b] and a privilege such as
    [voice], none of which the stated condition allows; and it rejects a
    call that meets the stated condition when the nicks are neither a
    string nor an array. *)
Lemma setPrivileges_accepts_empty_channel :
  setPrivileges (VStr EmptyString) (VStr "+") (VStr "o") (VArr []) idle_client
  = (Return VUndefined, idle_client)
  /\ ~ spec_accepts (VStr EmptyString) (VStr "+") (VStr "o")
  /\ fst (setPrivileges (VStr "#chan") (VStr "a+b") (VStr "voice")
            (VArr []) idle_client) = Return VUndefined
  /\ ~ spec_accepts (VStr "#chan") (VStr "a+b") (VStr "voice")
  /\ spec_accepts (VStr "#chan") (VStr "+") (VStr "o")
  /\ setPrivileges (VStr "#chan") (VStr "+") (VStr "o") VNull idle_client
     = (Throw AssertionError, idle_client).
Proof.
  split; [reflexivity|]. split.
  { intros [(ch & Hch & Hne) _]. injection Hch as <-. congruence. }
  split; [reflexivity|]. split.
  { intros (_ & [H|H] & _); discriminate H. }
  split; [|reflexivity].
  split; [exists "#chan"; split; [reflexivity|discriminate]|].
  split; [left; reflexivity|].
  exists "o"%char. split; [simpl; auto 10|reflexivity].
Qed.

(** C6, amended.  [setPrivileges] accepts a call if and only if the
    channel is a string (the empty string included), the action is a string
    that contains [+] or [-], the privilege is a string that contains one
    of the letters v, h, o in either case, and the nicks are a string or an
    array; it then returns normally.  Any other input is rejected with
    [AssertionError], with nothing sent. *)
Theorem setPrivileges_accepts_iff :
  forall (channel action privilege nicks : value) (c : Client),
    (accepts channel action privilege nicks
     <-> exists ks,
           setPrivileges channel action privilege nicks c
           = (Return VUndefined, record_calls ks c))
    /\ (~ accepts channel action privilege nicks
        <-> setPrivileges channel action privilege nicks c
            = (Throw AssertionError, c)).
Proof.
  intros channel action privilege nicks c. split; split.
  - apply accepts_runs.
  - intros [ks Hrun] .
    destruct (setPrivileges_cases channel action privilege nicks c) as [H|H].
    + now apply accepts_checks.
    + rewrite H in Hrun. discriminate Hrun.
  - apply not_accepts_throws.
  - intros Hthrow Hacc.
    destruct (accepts_runs _ _ _ _ c Hacc) as [ks Hrun].
    rewrite Hrun in Hthrow. discriminate Hthrow.
Qed.

(* ================================================================== *)
(** * Further properties: what the methods do to the connection *)
(* ================================================================== *)

Section Frames.

Lemma sends_only_join (channels : value) : sends_only (join channels).
Proof.
  destruct channels; try (right; intros c; reflexivity);
    left; eexists; intros c; apply join_run; reflexivity.
Qed.

Lemma sends_only_part (channels message : value) :
  sends_only (part channels message).
Proof.
  destruct channels; try (right; intros c; reflexivity);
    left; eexists; intros c; apply part_run; reflexivity.
Qed.

Lemma sends_only_kick (channel nicks reason : value) :
  sends_only (kick channel nicks reason).
Proof.
  destruct nicks; try (right; intros c; reflexivity);
    left; eexists; intros c; apply kick_run; reflexivity.
Qed.

Lemma sends_only_sendMessage (type target lines prefix : value) :
  sends_only (sendMessage type target lines prefix).
Proof.
  destruct (sendMessage_cases type target lines prefix idle_client)
    as [(ty & tg & l & -> & -> & Ht & Hl)|Hthrow].
  - left. eexists. intros c. exact (sendMessage_run ty tg lines prefix l c Ht Hl).
  - right. intros c.
    destruct (sendMessage_cases type target lines prefix c)
      as [(ty & tg & l & -> & -> & Ht & Hl)|H]; [|exact H].
    rewrite (sendMessage_run ty tg lines prefix l idle_client Ht Hl) in Hthrow.
    discriminate Hthrow.
Qed.

Lemma sends_only_setPrivileges (channel action privilege nicks : value) :
  sends_only (setPrivileges channel action privilege nicks).
Proof.
  destruct (setPrivileges_cases channel action privilege nicks idle_client)
    as [(ch & a & p & l & -> & -> & -> & Ha & Hp & Hl)|Hthrow].
  - left. eexists. intros c. exact (setPrivileges_run ch a p nicks l c Ha Hp Hl).
  - right. intros c.
    destruct (setPrivileges_cases channel action privilege nicks c)
      as [(ch & a & p & l & -> & -> & -> & Ha & Hp & Hl)|H]; [|exact H].
    rewrite (setPrivileges_run ch a p nicks l idle_client Ha Hp Hl) in Hthrow.
    discriminate Hthrow.
Qed.


End Frames.

(** X1.  No sending method looks at or changes the state of the connection
    beyond appending to its call log: [join], [part], [kick], [setNick],
    [setTopic], [sendMessage] and [setPrivileges] each either return
    undefined after appending a list of calls that depends on the arguments
    only, or throw [AssertionError] with the connection untouched, and which
    of the two happens depends on the arguments only. *)
Theorem methods_only_append_calls :
  (forall channels, sends_only (join channels))
  /\ (forall channels message, sends_only (part channels message))
  /\ (forall channel nicks reason, sends_only (kick channel nicks reason))
  /\ (forall n, sends_only (setNick n))
  /\ (forall channel message, sends_only (setTopic channel message))
  /\ (forall type target lines prefix,
         sends_only (sendMessage type target lines prefix))
  /\ (forall channel action privilege nicks,
         sends_only (setPrivileges channel action privilege nicks)).
Proof.
  split; [exact sends_only_join|].
  split; [exact sends_only_part|].
  split; [exact sends_only_kick|].
  split; [intros n; left; eexists; intros c; reflexivity|].
  split; [intros channel message; left; eexists; intros c; reflexivity|].
  split; [exact sends_only_sendMessage|exact sends_only_setPrivileges].
Qed.



Section Counting.

Lemma calls_record_calls (ks : list LibCall) (c : Client) :
  calls (record_calls ks c) = (calls c ++ ks)%list.
Proof. reflexivity. Qed.

Lemma not_string_or_array_split (x : value) :
  ~ string_or_array x -> forall l, split_if_string x <> VArr l.
Proof.
  intros Hno l Hl. apply Hno. apply string_or_array_split. eauto.
Qed.

Lemma normalize_list_bad (x : value) (c : Client) :
  ~ string_or_array x -> normalize_list x c = (Throw AssertionError, c).
Proof.
  intros Hno.
  destruct (normalize_list_cases x c) as [(l & Hl & _)|[_ H]]; [|exact H].
  now elim (not_string_or_array_split x Hno l).
Qed.

End Counting.

(** X3.  [join] calls [lib.join] once per channel, in order, and nothing
    else: for an array the elements are passed on as they are, for a string
    the calls are one more than the string has spaces (so the empty string
    still makes one call, with the empty channel).  An argument that is
    neither a string nor an array throws [AssertionError] before any
    call. *)
Theorem join_calls_per_channel :
  forall (channels : value) (c : Client),
    (forall l, channels = VArr l ->
               join channels c = (Return VUndefined, record_calls (map Join l) c))
    /\ (forall s, channels = VStr s ->
                  exists tokens,
                    join channels c
                    = (Return VUndefined,
                       record_calls (map (fun t => Join (VStr t)) tokens) c)
                    /\ String.concat " " tokens = s
                    /\ length tokens = S (count_char " " s))
    /\ (~ string_or_array channels ->
        join channels c = (Throw AssertionError, c)).
Proof.
  intros channels c. split; [|split].
  - intros l ->. now apply join_run.
  - intros s ->. exists (String_split " " s).
    rewrite (join_run (VStr s) _ c eq_refl), map_map.
    split; [reflexivity|].
    split; [apply concat_String_split|apply length_String_split].
  - intros Hno. unfold join.
    now rewrite (bind_Throw _ _ _ _ _ (normalize_list_bad _ c Hno)).
Qed.

(** X4.  [part] calls [lib.part] once per channel, in order, each time with
    the same message argument (undefined when none was given); a string of
    channels makes one call more than it has spaces; an argument that is
    neither a string nor an array throws [AssertionError] before any
    call, whatever the message. *)
Theorem part_calls_per_channel :
  forall (channels message : value) (c : Client),
    (forall l, channels = VArr l ->
               part channels message c
               = (Return VUndefined,
                  record_calls (map (fun ch => Part ch message) l) c))
    /\ (forall s, channels = VStr s ->
                  exists tokens,
                    part channels message c
                    = (Return VUndefined,
                       record_calls
                         (map (fun t => Part (VStr t) message) tokens) c)
                    /\ String.concat " " tokens = s
                    /\ length tokens = S (count_char " " s))
    /\ (~ string_or_array channels ->
        part channels message c = (Throw AssertionError, c)).
Proof.
  intros channels message c. split; [|split].
  - intros l ->. now apply part_run.
  - intros s ->. exists (String_split " " s).
    rewrite (part_run (VStr s) message _ c eq_refl), map_map.
    split; [reflexivity|].
    split; [apply concat_String_split|apply length_String_split].
  - intros Hno. unfold part.
    now rewrite (bind_Throw _ _ _ _ _ (normalize_list_bad _ c Hno)).
Qed.

(** X5.  [kick] validates its nicks only: it returns normally exactly when
    the nicks are a string or an array, whatever the channel and the reason
    are, and otherwise throws [AssertionError] with nothing sent.  When it
    returns it has sent as many commands as there are nicks, for a string
    one more than the string has spaces. *)
Theorem kick_validates_nicks_only :
  forall (channel nicks reason : value) (c : Client),
    (string_or_array nicks <->
     exists l,
       split_if_string nicks = VArr l
       /\ exists ks,
           kick channel nicks reason c = (Return VUndefined, record_calls ks c)
           /\ length ks = length l)
    /\ (~ string_or_array nicks <->
        kick channel nicks reason c = (Throw AssertionError, c))
    /\ (forall s, nicks = VStr s ->
                  length (calls (snd (kick channel nicks reason c)))
                  = length (calls c) + S (count_char " " s)).
Proof.
  intros channel nicks reason c. split; [|split].
  - split.
    + intros H. apply string_or_array_split in H. destruct H as [l Hl].
      exists l. split; [exact Hl|]. eexists.
      split; [exact (kick_run channel nicks reason l c Hl)|].
      now rewrite length_map.
    + intros (l & Hl & _). apply string_or_array_split. eauto.
  - split.
    + intros Hno. apply kick_bad_nicks. now apply not_string_or_array_split.
    + intros Hthrow H. apply string_or_array_split in H. destruct H as [l Hl].
      rewrite (kick_run channel nicks reason l c Hl) in Hthrow.
      discriminate Hthrow.
  - intros s ->.
    rewrite (kick_run channel (VStr s) reason _ c eq_refl). simpl snd.
    rewrite calls_record_calls, length_app, !length_map.
    now rewrite length_String_split.
Qed.

(* ================================================================== *)
(** * Further properties: the lines of a message *)
(* ================================================================== *)

Section LineSegments.

Lemma append_empty_r (s : string) : s ++ EmptyString = s.
Proof. induction s as [|a s IH]; simpl; [reflexivity|now rewrite IH]. Qed.









End LineSegments.





Section Substrings.

Lemma prefix_cons (a b : ascii) (lit s : string) :
  prefix (String a lit) (String b s)
  = if ascii_dec a b then prefix lit s else false.
Proof. reflexivity. Qed.

Lemma prefix_append (lit s : string) :
  prefix lit s = true <-> exists post, s = lit ++ post.
Proof.
  revert s. induction lit as [|a lit IH]; intros s.
  - rewrite prefix_empty. split; [intros _; exists s|]; reflexivity.
  - destruct s as [|b s].
    + split; [discriminate|intros [post H]; discriminate H].
    + rewrite prefix_cons. destruct (ascii_dec a b) as [->|Hne].
      * rewrite IH. split; intros [post H]; exists post.
        -- simpl. now rewrite H.
        -- simpl in H. now injection H.
      * split; [discriminate|]. intros [post H]. simpl in H.
        injection H as H1 H2. congruence.
Qed.

(** [includes lit s] finds [lit] as a substring of [s]. *)
Lemma includes_substring (lit s : string) :
  includes lit s = true <-> exists pre post, s = pre ++ lit ++ post.
Proof.
  induction s as [|a s IH].
  - cbn [includes]. rewrite orb_false_r, prefix_append. split.
    + intros [post H]. exists EmptyString, post. exact H.
    + intros (pre & post & H). destruct pre as [|b pre]; [|discriminate H].
      exists post. exact H.
  - cbn [includes]. rewrite orb_true_iff, IH, prefix_append. split.
    + intros [[post H]|(pre & post & H)].
      * exists EmptyString, post. exact H.
      * exists (String a pre), post. simpl. now rewrite H.
    + intros (pre & post & H). destruct pre as [|b pre].
      * left. exists post. exact H.
      * right. exists pre, post. simpl in H. now injection H.
Qed.

End Substrings.

(** X8.  [sendMessage] passes a type whose upper-case form contains PRIVMSG
    or NOTICE as a substring, and no other: the check is neither anchored
    nor case-sensitive.  The type is then sent exactly as it was given, in
    the caller's spelling, once per element of an array of lines, whose
    elements go out as they are. *)
Theorem sendMessage_type_check :
  forall (ty tg : string) (l : list value) (c : Client),
    ((exists pre post,
         canonicalize_string ty = pre ++ "PRIVMSG" ++ post
         \/ canonicalize_string ty = pre ++ "NOTICE" ++ post)
     <-> sendMessage (VStr ty) (VStr tg) (VArr l) VUndefined c
         = (Return VUndefined,
            record_calls
              (map (fun line => Send [VStr ty; VStr tg; line]) l) c))
    /\ (~ (exists pre post,
              canonicalize_string ty = pre ++ "PRIVMSG" ++ post
              \/ canonicalize_string ty = pre ++ "NOTICE" ++ post)
        <-> sendMessage (VStr ty) (VStr tg) (VArr l) VUndefined c
            = (Throw AssertionError, c)).
Proof.
  intros ty tg l c.
  assert (Htest : RegExp_test re_PRIVMSG_NOTICE ty = true
                  <-> exists pre post,
                      canonicalize_string ty = pre ++ "PRIVMSG" ++ post
                      \/ canonicalize_string ty = pre ++ "NOTICE" ++ post).
  { unfold RegExp_test, re_PRIVMSG_NOTICE.
    cbn [ignoreCase alternatives existsb].
    rewrite orb_false_r, orb_true_iff.
    change (canonicalize_string "PRIVMSG") with "PRIVMSG".
    change (canonicalize_string "NOTICE") with "NOTICE".
    rewrite !includes_substring. split.
    - intros [(pre & post & H)|(pre & post & H)]; exists pre, post; auto.
    - intros (pre & post & [H|H]); [left|right]; exists pre, post; exact H. }
  assert (Hrun : RegExp_test re_PRIVMSG_NOTICE ty = true ->
                 sendMessage (VStr ty) (VStr tg) (VArr l) VUndefined c
                 = (Return VUndefined,
                    record_calls
                      (map (fun line => Send [VStr ty; VStr tg; line]) l) c)).
  { intros Ht. exact (sendMessage_run ty tg (VArr l) VUndefined l c Ht eq_refl). }
  assert (Hthrow : RegExp_test re_PRIVMSG_NOTICE ty = false ->
                   sendMessage (VStr ty) (VStr tg) (VArr l) VUndefined c
                   = (Throw AssertionError, c)).
  { intros Ht. unfold sendMessage, assert_match. simpl. now rewrite Ht. }
  rewrite <- Htest.
  destruct (RegExp_test re_PRIVMSG_NOTICE ty) eqn:Ht; split; split.
  - intros _. now apply Hrun.
  - reflexivity.
  - intros H. now elim H.
  - intros H. rewrite Hrun in H by reflexivity. discriminate H.
  - discriminate.
  - intros H. rewrite Hthrow in H by reflexivity. discriminate H.
  - intros _. now apply Hthrow.
  - intros _. discriminate.
Qed.



(** X10.  [tell] and [notify] never fail on the type check: each returns
    normally exactly when the target is a string and the message is a
    string, a buffer or an array, and otherwise throws [AssertionError]
    with nothing sent.  Every command [tell] sends has the form
    ["PRIVMSG", target, line] and every command [notify] sends the form
    ["NOTICE", target, line]. *)
Theorem tell_notify_checks :
  forall (target message prefix : value) (c : Client),
    let ok := (exists tg, target = VStr tg) /\ string_buffer_or_array message in
    (ok <->
     exists ks,
       tell target message prefix c = (Return VUndefined, record_calls ks c)
       /\ Forall (is_Send_with
                    (fun args => exists line,
                         args = [VStr "PRIVMSG"; target; line])) ks)
    /\ (~ ok <-> tell target message prefix c = (Throw AssertionError, c))
    /\ (ok <->
        exists ks,
          notify target message prefix c = (Return VUndefined, record_calls ks c)
          /\ Forall (is_Send_with
                       (fun args => exists line,
                            args = [VStr "NOTICE"; target; line])) ks)
    /\ (~ ok <-> notify target message prefix c = (Throw AssertionError, c)).
Proof.
  intros target message prefix c ok.
  assert (Hgen : forall ty,
             RegExp_test re_PRIVMSG_NOTICE ty = true ->
             (ok <->
              exists ks,
                sendMessage (VStr ty) target message prefix c
                = (Return VUndefined, record_calls ks c)
                /\ Forall (is_Send_with
                             (fun args => exists line,
                                  args = [VStr ty; target; line])) ks)
             /\ (~ ok <->
                 sendMessage (VStr ty) target message prefix c
                 = (Throw AssertionError, c))).
  { intros ty Ht.
    assert (Hok : ok -> exists ks,
                 sendMessage (VStr ty) target message prefix c
                 = (Return VUndefined, record_calls ks c)
                 /\ Forall (is_Send_with
                              (fun args => exists line,
                                   args = [VStr ty; target; line])) ks).
    { intros [[tg ->] Hm].
      apply string_buffer_or_array_lines in Hm. destruct Hm as [l Hl].
      eexists. split; [exact (sendMessage_run ty tg message prefix l c Ht Hl)|].
      apply Forall_forall. intros k Hk. apply in_map_iff in Hk.
      destruct Hk as (line & <- & _). eexists. split; [reflexivity|].
      eexists. reflexivity. }
    assert (Hno : ~ ok -> sendMessage (VStr ty) target message prefix c
                          = (Throw AssertionError, c)).
    { intros Hn.
      destruct (sendMessage_cases (VStr ty) target message prefix c)
        as [(ty' & tg & l & _ & -> & _ & Hl)|H]; [|exact H].
      elim Hn. split; [eauto|].
      apply string_buffer_or_array_lines. eauto. }
    split; split.
    - exact Hok.
    - intros (ks & Hrun & _) .
      destruct (sendMessage_cases (VStr ty) target message prefix c)
        as [(ty' & tg & l & _ & -> & _ & Hl)|H].
      + split; [eauto|]. apply string_buffer_or_array_lines. eauto.
      + rewrite H in Hrun. discriminate Hrun.
    - exact Hno.
    - intros Hthrow Hk. destruct (Hok Hk) as (ks & Hrun & _).
      rewrite Hrun in Hthrow. discriminate Hthrow. }
  destruct (Hgen "PRIVMSG" eq_refl) as [H1 H2].
  destruct (Hgen "NOTICE" eq_refl) as [H3 H4].
  split; [exact H1|]. split; [exact H2|]. split; [exact H3|exact H4].
Qed.

(* ================================================================== *)
(** * Further properties: privileges *)
(* ================================================================== *)

Section ModeStrings.

Lemma length_append (s1 s2 : string) :
  String.length (s1 ++ s2) = String.length s1 + String.length s2.
Proof. induction s1 as [|a s1 IH]; simpl; [reflexivity|now rewrite IH]. Qed.

Lemma length_String_repeat (s : string) (n : nat) :
  String.length (String_repeat s n) = String.length s * n.
Proof.
  induction n as [|n IH]; simpl; [lia|].
  rewrite length_append, IH. lia.
Qed.

Lemma batch_bounds (l : list value) (i : nat) :
  i < Math_ceil_div (length l) 6 -> 1 <= length (batch l i) <= 6.
Proof.
  intros Hi. pose proof (Math_ceil_div_6 (length l)) as Hk.
  rewrite length_batch. lia.
Qed.

End ModeStrings.

(** X11.  The six fixed callers [giveOps], [takeOps], [giveHops],
    [takeHops], [giveVoices] and [takeVoices] never fail on the action or
    the privilege: with a string channel and nicks that are a string or an
    array each sends the batched MODE commands with its own sign and letter
    ([+o], [-o], [+h], [-h], [+v], [-v], the letter once per nick of the
    batch), and with any other channel or nicks it throws [AssertionError]
    with nothing sent. *)
Theorem privilege_wrappers_check :
  Forall
    (fun w =>
       forall (channel nicks : value) (c : Client),
         (forall ch l,
             channel = VStr ch -> split_if_string nicks = VArr l ->
             fst w channel nicks c
             = (Return VUndefined,
                record_calls
                  (map (fun i =>
                          Send ([VStr "MODE"; VStr ch;
                                 VStr (fst (snd w) ++
                                       String_repeat (snd (snd w))
                                         (length (batch l i)))]
                                ++ batch l i)%list)
                       (seq 0 (Math_ceil_div (length l) 6))) c))
         /\ (~ ((exists ch, channel = VStr ch) /\ string_or_array nicks) ->
             fst w channel nicks c = (Throw AssertionError, c)))
    privilege_wrappers.
Proof.
  assert (Hgen : forall a p,
             RegExp_test re_plus_minus a = true ->
             RegExp_test re_v_h_o p = true ->
             forall (channel nicks : value) (c : Client),
               (forall ch l,
                   channel = VStr ch -> split_if_string nicks = VArr l ->
                   setPrivileges channel (VStr a) (VStr p) nicks c
                   = (Return VUndefined,
                      record_calls
                        (map (fun i =>
                                Send ([VStr "MODE"; VStr ch;
                                       VStr (a ++ String_repeat p
                                                    (length (batch l i)))]
                                      ++ batch l i)%list)
                             (seq 0 (Math_ceil_div (length l) 6))) c))
               /\ (~ ((exists ch, channel = VStr ch) /\ string_or_array nicks) ->
                   setPrivileges channel (VStr a) (VStr p) nicks c
                   = (Throw AssertionError, c))).
  { intros a p Ha Hp channel nicks c. split.
    - intros ch l -> Hl. exact (setPrivileges_run ch a p nicks l c Ha Hp Hl).
    - intros Hno.
      destruct (setPrivileges_cases channel (VStr a) (VStr p) nicks c)
        as [(ch & a' & p' & l & -> & _ & _ & _ & _ & Hl)|H]; [|exact H].
      elim Hno. split; [eauto|]. apply string_or_array_split. eauto. }
  unfold privilege_wrappers.
  repeat (constructor; [apply Hgen; reflexivity|]). constructor.
Qed.

(** X12.  Every command [setPrivileges] sends is a MODE command on the
    given channel that carries between one and six nicks, so it has at most
    nine tokens and is never empty of nicks; its mode string is as long as
    the action plus one privilege per nick carried.  The number of commands
    is the least that carries all the nicks six at a time. *)
Theorem setPrivileges_command_sizes :
  forall (ch a p : string) (nicks : value) (l : list value) (c : Client),
    RegExp_test re_plus_minus a = true ->
    RegExp_test re_v_h_o p = true ->
    split_if_string nicks = VArr l ->
    exists ks,
      setPrivileges (VStr ch) (VStr a) (VStr p) nicks c
      = (Return VUndefined, record_calls ks c)
      /\ Forall
           (is_Send_with
              (fun args =>
                 exists mode carried,
                   args = ([VStr "MODE"; VStr ch; VStr mode] ++ carried)%list
                   /\ 1 <= length carried <= 6
                   /\ 4 <= length args <= 9
                   /\ String.length mode
                      = String.length a + String.length p * length carried))
           ks
      /\ length l <= 6 * length ks < length l + 6.
Proof.
  intros ch a p nicks l c Ha Hp Hl. eexists.
  split; [exact (setPrivileges_run ch a p nicks l c Ha Hp Hl)|]. split.
  - apply Forall_forall. intros k Hk. apply in_map_iff in Hk.
    destruct Hk as (i & <- & Hi). apply in_seq in Hi.
    pose proof (batch_bounds l i ltac:(lia)) as Hb.
    eexists. split; [reflexivity|]. unfold mode_command.
    eexists. eexists. split; [reflexivity|].
    split; [exact Hb|]. split.
    + rewrite length_app. simpl length. lia.
    + now rewrite length_append, length_String_repeat.
  - rewrite length_map, length_seq. apply Math_ceil_div_6.
Qed.

Lemma setPrivileges_command_sizes_witness :
  (RegExp_test re_plus_minus "-" = true
   /\ RegExp_test re_v_h_o "v" = true
   /\ split_if_string (VStr "a b c d e f g")
      = VArr (map VStr ["a"; "b"; "c"; "d"; "e"; "f"; "g"]))
  /\ exists ks,
      setPrivileges (VStr "#chan") (VStr "-") (VStr "v")
                    (VStr "a b c d e f g") idle_client
      = (Return VUndefined, record_calls ks idle_client)
      /\ Forall
           (is_Send_with
              (fun args =>
                 exists mode carried,
                   args = ([VStr "MODE"; VStr "#chan"; VStr mode]
                           ++ carried)%list
                   /\ 1 <= length carried <= 6
                   /\ 4 <= length args <= 9
                   /\ String.length mode
                      = String.length "-" + String.length "v" * length carried))
           ks
      /\ 7 <= 6 * length ks < 7 + 6.
Proof.
  split; [repeat split|].
  exact (setPrivileges_command_sizes
           "#chan" "-" "v" (VStr "a b c d e f g")
           (map VStr ["a"; "b"; "c"; "d"; "e"; "f"; "g"]) idle_client
           eq_refl eq_refl eq_refl).
Defined.

(** X13.  Nicks given as a string always cost at least one MODE command:
    a string with [n] spaces gives [n + 1] nicks (empty ones included), so
    the empty string sends one MODE command for one empty nick, unlike the
    empty array, which sends nothing. *)
Theorem setPrivileges_string_nicks :
  forall (ch a p s : string) (c : Client),
    RegExp_test re_plus_minus a = true ->
    RegExp_test re_v_h_o p = true ->
    (exists ks,
        setPrivileges (VStr ch) (VStr a) (VStr p) (VStr s) c
        = (Return VUndefined, record_calls ks c)
        /\ 1 <= length ks
        /\ S (count_char " " s) <= 6 * length ks < S (count_char " " s) + 6)
    /\ setPrivileges (VStr ch) (VStr a) (VStr p) (VStr EmptyString) c
       = (Return VUndefined,
          record_call (Send [VStr "MODE"; VStr ch; VStr (a ++ p ++ EmptyString);
                             VStr EmptyString]) c)
    /\ setPrivileges (VStr ch) (VStr a) (VStr p) (VArr []) c
       = (Return VUndefined, c).
Proof.
  intros ch a p s c Ha Hp. split; [|split].
  - eexists.
    split; [exact (setPrivileges_run ch a p (VStr s) _ c Ha Hp eq_refl)|].
    rewrite length_map, length_seq, length_map, length_String_split.
    pose proof (Math_ceil_div_6 (S (count_char " " s))) as Hk. lia.
  - rewrite (setPrivileges_run ch a p (VStr EmptyString) _ c Ha Hp eq_refl).
    reflexivity.
  - rewrite (setPrivileges_run ch a p (VArr []) [] c Ha Hp eq_refl).
    simpl. now rewrite record_calls_nil.
Qed.

Lemma setPrivileges_string_nicks_witness :
  (RegExp_test re_plus_minus "+" = true /\ RegExp_test re_v_h_o "o" = true)
  /\ setPrivileges (VStr "#chan") (VStr "+") (VStr "o") (VStr EmptyString)
                   idle_client
     = (Return VUndefined,
        record_call (Send [VStr "MODE"; VStr "#chan"; VStr "+o";
                           VStr EmptyString]) idle_client).
Proof.
  split; [split; reflexivity|].
  exact (proj1 (proj2 (setPrivileges_string_nicks
                         "#chan" "+" "o" EmptyString idle_client
                         eq_refl eq_refl))).
Defined.

(* ================================================================== *)
(** * Further properties: the topic and the settings *)
(* ================================================================== *)

(** X14.  Whatever the cached channel data holds, [getTopic] returns
    either undefined or a truthy value, never an empty string or another
    falsy value, so a caller can test the result for presence; and when the
    topic is a non-empty string the result is a string that begins with
    it. *)
Theorem getTopic_result_shape :
  forall (c : Client) (channel : value),
    exists r : value,
      getTopic channel c = (Return r, c)
      /\ (r = VUndefined \/ truthy r = true)
      /\ (forall d t,
             chanData c channel = Some d -> topic d = VStr t ->
             t <> EmptyString ->
             exists suffix, r = VStr (t ++ suffix)).
Proof.
  intros c channel. unfold getTopic, lib_chanData.
  rewrite bind_Return with (a := chanData c channel) (c' := c) by reflexivity.
  unfold ret. destruct (chanData c channel) as [[t b]|].
  2:{ eexists. split; [reflexivity|]. split; [now left|].
      intros d t H. discriminate H. }
  simpl topic. simpl topicBy.
  destruct (truthy t) eqn:Et.
  2:{ eexists. split; [reflexivity|]. split; [now left|].
      intros d t0 Hd Ht Hne. injection Hd as <-. simpl in Ht. subst t.
      apply truthy_VStr in Hne. congruence. }
  destruct (truthy b) eqn:Eb.
  - eexists. split; [reflexivity|]. split.
    + right. destruct (ToString t); reflexivity.
    + intros d t0 Hd Ht _. injection Hd as <-. simpl in Ht. subst t.
      eexists. reflexivity.
  - eexists. split; [reflexivity|]. split; [now right|].
    intros d t0 Hd Ht _. injection Hd as <-. simpl in Ht. subst t.
    exists EmptyString. now rewrite append_empty_r.
Qed.

Section ObjectLemmas.

Lemma Object_lookup_set (o : Object) (k k' : string) (v : value) :
  Object_lookup (Object_set o k v) k'
  = if String.eqb k k' then Some v else Object_lookup o k'.
Proof.
  induction o as [|[k0 v0] o IH]; simpl.
  - reflexivity.
  - destruct (String.eqb k0 k) eqn:E0; simpl.
    + apply String.eqb_eq in E0. subst k0.
      destruct (String.eqb k k'); reflexivity.
    + destruct (String.eqb k0 k') eqn:E1.
      * apply String.eqb_eq in E1. subst k0.
        rewrite String.eqb_sym in E0. now rewrite E0.
      * exact IH.
Qed.

Lemma Object_lookup_absent (o : Object) (k : string) :
  ~ In k (map fst o) -> Object_lookup o k = None.
Proof.
  induction o as [|[k0 v0] o IH]; simpl; [reflexivity|].
  intros Hno. destruct (String.eqb k0 k) eqn:E.
  - apply String.eqb_eq in E. tauto.
  - apply IH. tauto.
Qed.

(** In [{ ...target, ...source }] a property of [source] wins, and a key
    that [source] lacks keeps the value it has in [target]. *)
Lemma Object_lookup_spread (source : Object) :
  NoDup (map fst source) ->
  forall (target : Object) (k : string),
    Object_lookup (spread target source) k
    = match Object_lookup source k with
      | Some v => Some v
      | None => Object_lookup target k
      end.
Proof.
  unfold spread. induction source as [|[k0 v0] source IH]; intros Hnd target k.
  - reflexivity.
  - simpl map in Hnd. inversion Hnd as [|? ? Hnotin Hnd']; subst.
    simpl fold_left. rewrite (IH Hnd'). simpl Object_lookup.
    rewrite Object_lookup_set.
    destruct (String.eqb k0 k) eqn:E.
    + apply String.eqb_eq in E. subst k0.
      now rewrite (Object_lookup_absent source k Hnotin).
    + reflexivity.
Qed.

End ObjectLemmas.

(** X15.  In the settings the constructor computes, an option given by the
    caller overrides the default of the same name (also when its value is
    undefined, null or false), an option without default is kept, and a
    default the caller did not mention keeps its value; without options
    the settings are the defaults. *)
Theorem settings_override_defaults :
  forall (options : Object) (k : string),
    NoDup (map fst options) ->
    Object_lookup (settings (Some options)) k
    = match Object_lookup options k with
      | Some v => Some v
      | None => Object_lookup defaults k
      end
    /\ settings None = defaults.
Proof.
  intros options k Hnd. split; [|reflexivity].
  unfold settings.
  change (spread [] defaults) with defaults.
  now apply Object_lookup_spread.
Qed.

Lemma settings_override_defaults_witness :
  NoDup (map fst [("nick", VStr "bot"); ("secure", VBool false)])
  /\ Object_lookup
       (settings (Some [("nick", VStr "bot"); ("secure", VBool false)]))
       "secure"
     = Some (VBool false).
Proof.
  assert (Hnd : NoDup (map fst [("nick", VStr "bot"); ("secure", VBool false)])).
  { repeat constructor; simpl; intuition discriminate. }
  split; [exact Hnd|].
  exact (proj1 (settings_override_defaults
                  [("nick", VStr "bot"); ("secure", VBool false)]
                  "secure" Hnd)).
Defined.

(** X16.  The server and the nick the constructor hands to [irc.Client]
    and the level of its logger come from the caller's options alone: the
    server and the nick are the options of these names, undefined when they
    are missing (the defaults have neither), and the level is the option
    [logLevel] when that is truthy and ["info"] otherwise. *)
Theorem constructor_reads_options :
  forall (options : Object),
    NoDup (map fst options) ->
    fst (client_arguments (Some options))
    = (Object_get options "server", Object_get options "nick")
    /\ logger_level (Some options)
       = (if truthy (Object_get options "logLevel")
          then Object_get options "logLevel" else VStr "info")
    /\ fst (client_arguments None) = (VUndefined, VUndefined)
    /\ logger_level None = VStr "info".
Proof.
  intros options Hnd.
  assert (Hget : forall k,
             Object_lookup defaults k = None ->
             Object_get (settings (Some options)) k = Object_get options k).
  { intros k Hk. unfold Object_get, settings.
    change (spread [] defaults) with defaults.
    rewrite (Object_lookup_spread options Hnd), Hk.
    destruct (Object_lookup options k); reflexivity. }
  split; [|split; [|split; reflexivity]].
  - unfold client_arguments. simpl fst.
    now rewrite !Hget by reflexivity.
  - unfold logger_level. now rewrite Hget by reflexivity.
Qed.

Lemma constructor_reads_options_witness :
  NoDup (map fst [("server", VStr "irc.example.org"); ("logLevel", VStr "debug")])
  /\ fst (client_arguments
            (Some [("server", VStr "irc.example.org");
                   ("logLevel", VStr "debug")]))
     = (VStr "irc.example.org", VUndefined)
  /\ logger_level (Some [("server", VStr "irc.example.org");
                         ("logLevel", VStr "debug")])
     = VStr "debug".
Proof.
  assert (Hnd : NoDup (map fst [("server", VStr "irc.example.org");
                                ("logLevel", VStr "debug")])).
  { repeat constructor; simpl; intuition discriminate. }
  split; [exact Hnd|].
  destruct (constructor_reads_options
              [("server", VStr "irc.example.org"); ("logLevel", VStr "debug")]
              Hnd) as (Hargs & Hlevel & _).
  split; [exact Hargs|exact Hlevel].
Defined.
